(** * Entropy pool engine of the Crypto library (RNG.cpp)

    A shallow embedding of [RNGClass] from
    [Modified libraries/Crypto/src/RNG.cpp] and the properties its
    specification states about it.

    Conventions of the embedding.
    - Memory is bytes: [block] and [stream] (both [uint32_t[16]]) are the
      64 bytes they occupy; a word access [block[i]] reads and writes the
      four bytes [4i .. 4i+3], least significant first (every target the
      file names is little-endian).
    - Fixed-width integers are [Z] with the wrap-around written out
      ([wrap bits x]).
    - The collaborators the file only calls (ChaCha::hashCore,
      crypto_crc8, micros(), millis(), the TRNG registers, the device
      identifier) are fields of a [World]; a read of a clock or of a
      register takes the value the world gives at the current read index
      [now] and advances the index.
    - The state carries a [trace] of the rekeys, keystream blocks and seed
      blocks produced so far, newest first; nothing reads it back. *)

From Stdlib Require Import ZArith Lia Bool List.
From stdpp Require Import base list.
Import ListNotations.
Local Open Scope Z_scope.

(** ** Constants of the file *)

(** [#define RNG_ROUNDS 20] *)
Definition RNG_ROUNDS : Z := 20.
(** [#define RNG_REKEY_BLOCKS 16] *)
Definition RNG_REKEY_BLOCKS : Z := 16.
(** [#define RNG_MAX_CREDITS 384u] *)
Definition RNG_MAX_CREDITS : Z := 384.
(** [RNGClass::SEED_SIZE]; the file's comments give its value ("the 48 byte
    seed", "from 48 bytes to 47"). *)
Definition SEED_SIZE : nat := 48.
(** [sizeof(noiseSources) / sizeof(noiseSources[0])]: "RNG supports a
    maximum of four noise sources". *)
Definition MAX_NOISE_SOURCES : nat := 4.

(** ["expand 32-byte k"] *)
Definition tagRNG : list Z :=
  [101; 120; 112; 97; 110; 100; 32; 51; 50; 45; 98; 121; 116; 101; 32; 107].

Definition initRNG : list Z :=
  [0xB0; 0x2A; 0xAE; 0x7D; 0xEE; 0xCB; 0xBB; 0xB1;
   0xFC; 0x03; 0x6F; 0xDD; 0xDC; 0x7D; 0x76; 0x67;
   0x0C; 0xE8; 0x1F; 0x0D; 0xA3; 0xA0; 0xAA; 0x1E;
   0xB0; 0xBD; 0x72; 0x6B; 0x2B; 0x4C; 0x8A; 0x7E;
   0x34; 0xFC; 0x37; 0x60; 0xF4; 0x1E; 0x22; 0xA0;
   0x0B; 0xFB; 0x18; 0x84; 0x60; 0xA5; 0x77; 0x72].

(** ** Targets and collaborators *)

(** The branch of the [#if] ladder at the head of the file.
    AVR: RNG_EEPROM and RNG_WATCHDOG.  DUE: RNG_DUE_TRNG.
    ESP8266: RNG_WORD_TRNG.  ESP32: RNG_WORD_TRNG and RNG_ESP_NVS.
    GENERIC: none of them (the [#warning] branch). *)
Inductive target := AVR | DUE | ESP8266 | ESP32 | GENERIC.

Definition RNG_WORD_TRNG (t : target) : bool :=
  match t with ESP8266 | ESP32 => true | _ => false end.

Record World := mkWorld {
  board : target;
  (** width of [size_t] and of [unsigned int] (16 on AVR, 32 on the
      SAM3X and the ESPs) *)
  SIZE_BITS : Z;
  UINT_BITS : Z;
  SIZE_BITS_ge : 16 <= SIZE_BITS;
  UINT_BITS_ge : 16 <= UINT_BITS;
  (** width of the [credits] field.  RNG.h is not part of the sources;
      the casts to [uint16_t] around every use of the field bound it by
      16, and it holds RNG_MAX_CREDITS. *)
  CREDIT_BITS : Z;
  CREDIT_BITS_range : 9 <= CREDIT_BITS <= 16;
  (** Modelled from the spec: ChaCha.cpp is not among the sources.
      [ChaCha::hashCore(output, input, rounds)] is the permutation
      primitive, "permute(block: Bytes(64), rounds) -> Bytes(64),
      deterministic, no side effects": the 64 bytes written to [output],
      as a function of the bytes of [input].  Nothing is assumed of its
      values. *)
  hashCore : list Z -> Z -> list Z;
  hashCore_length : forall b r, length (hashCore b r) = 64%nat;
  (** Modelled from the spec: Crypto.cpp is not among the sources.
      [crypto_crc8(tag, data, size)] is the "integrity tag computed over
      the stored bytes with a fixed domain-separation byte", over the
      [size] bytes given. *)
  crypto_crc8 : Z -> list Z -> Z;
  (** clocks, by read index *)
  micros : nat -> Z;
  millis : nat -> Z;
  (** TRNG: [REG_TRNG_ISR & TRNG_ISR_DATRDY] seen set (for [mixTRNG]:
      within its 200 polls), and the word read from [REG_TRNG_ODATA] or
      [RNG_WORD_TRNG_GET()] *)
  trng_ready : nat -> bool;
  trng_word : nat -> Z;
  (** the identifier [begin] stirs in: the CPU's unique identifier (DUE),
      the chip ids (ESP8266), the MAC (ESP32), [__TIME__ __DATE__]
      otherwise *)
  unique_id : list Z;
  (** [nvs_open] and the calls after it succeeding *)
  nvs_ok : nat -> bool;
  (** [RNG_FLASH_PAGE_SIZE / 4] *)
  FLASH_PAGE_WORDS : nat
}.

(** What the engine has done so far. *)
Inductive event :=
| EvBegin (tag : option (list Z))   (* begin() ran past its guard *)
| EvRekey                           (* rekey() ran *)
| EvBlock                           (* rand() generated a keystream block *)
| EvSave.                           (* save() generated a seed block *)

(** A registered [NoiseSource]: its [stir()] calls back into
    [RNG.stir(data, len, credit)] some number of times. *)
Record NoiseSource := mkNoise {
  ns_stir : nat -> list (list Z * Z)
}.

(** ** State *)

Record RNGClass := mkRNG {
  block : list Z;
  stream : list Z;
  credits : Z;
  firstSave : bool;
  initialized : bool;
  trngPending : bool;
  timer : Z;
  timeout : Z;
  noiseSources : list NoiseSource;     (* the first [count] entries *)
  trngPosn : Z;
  (* the file-scope statics of RNG_WATCHDOG *)
  hash : Z;
  outBits : Z;
  (* non-volatile memory: the last SEED_SIZE bytes of EEPROM, the words of
     the last flash page, the blob "seed" of the NVS namespace "rng" *)
  eeprom : list Z;
  flash : list Z;
  nvs : option (list Z);
  (* read index of the world, and the trace (newest first) *)
  now : nat;
  trace : list event
}.

Definition set_block (v : list Z) (s : RNGClass) : RNGClass :=
  mkRNG v (stream s) (credits s) (firstSave s) (initialized s) (trngPending s)
        (timer s) (timeout s) (noiseSources s) (trngPosn s) (hash s) (outBits s)
        (eeprom s) (flash s) (nvs s) (now s) (trace s).
Definition set_stream (v : list Z) (s : RNGClass) : RNGClass :=
  mkRNG (block s) v (credits s) (firstSave s) (initialized s) (trngPending s)
        (timer s) (timeout s) (noiseSources s) (trngPosn s) (hash s) (outBits s)
        (eeprom s) (flash s) (nvs s) (now s) (trace s).
Definition set_credits (v : Z) (s : RNGClass) : RNGClass :=
  mkRNG (block s) (stream s) v (firstSave s) (initialized s) (trngPending s)
        (timer s) (timeout s) (noiseSources s) (trngPosn s) (hash s) (outBits s)
        (eeprom s) (flash s) (nvs s) (now s) (trace s).
Definition set_firstSave (v : bool) (s : RNGClass) : RNGClass :=
  mkRNG (block s) (stream s) (credits s) v (initialized s) (trngPending s)
        (timer s) (timeout s) (noiseSources s) (trngPosn s) (hash s) (outBits s)
        (eeprom s) (flash s) (nvs s) (now s) (trace s).
Definition set_initialized (v : bool) (s : RNGClass) : RNGClass :=
  mkRNG (block s) (stream s) (credits s) (firstSave s) v (trngPending s)
        (timer s) (timeout s) (noiseSources s) (trngPosn s) (hash s) (outBits s)
        (eeprom s) (flash s) (nvs s) (now s) (trace s).
Definition set_trngPending (v : bool) (s : RNGClass) : RNGClass :=
  mkRNG (block s) (stream s) (credits s) (firstSave s) (initialized s) v
        (timer s) (timeout s) (noiseSources s) (trngPosn s) (hash s) (outBits s)
        (eeprom s) (flash s) (nvs s) (now s) (trace s).
Definition set_timer (v : Z) (s : RNGClass) : RNGClass :=
  mkRNG (block s) (stream s) (credits s) (firstSave s) (initialized s) (trngPending s)
        v (timeout s) (noiseSources s) (trngPosn s) (hash s) (outBits s)
        (eeprom s) (flash s) (nvs s) (now s) (trace s).
Definition set_timeout (v : Z) (s : RNGClass) : RNGClass :=
  mkRNG (block s) (stream s) (credits s) (firstSave s) (initialized s) (trngPending s)
        (timer s) v (noiseSources s) (trngPosn s) (hash s) (outBits s)
        (eeprom s) (flash s) (nvs s) (now s) (trace s).
Definition set_noiseSources (v : list NoiseSource) (s : RNGClass) : RNGClass :=
  mkRNG (block s) (stream s) (credits s) (firstSave s) (initialized s) (trngPending s)
        (timer s) (timeout s) v (trngPosn s) (hash s) (outBits s)
        (eeprom s) (flash s) (nvs s) (now s) (trace s).
Definition set_trngPosn (v : Z) (s : RNGClass) : RNGClass :=
  mkRNG (block s) (stream s) (credits s) (firstSave s) (initialized s) (trngPending s)
        (timer s) (timeout s) (noiseSources s) v (hash s) (outBits s)
        (eeprom s) (flash s) (nvs s) (now s) (trace s).
Definition set_wdt (h o : Z) (s : RNGClass) : RNGClass :=
  mkRNG (block s) (stream s) (credits s) (firstSave s) (initialized s) (trngPending s)
        (timer s) (timeout s) (noiseSources s) (trngPosn s) h o
        (eeprom s) (flash s) (nvs s) (now s) (trace s).
Definition set_eeprom (v : list Z) (s : RNGClass) : RNGClass :=
  mkRNG (block s) (stream s) (credits s) (firstSave s) (initialized s) (trngPending s)
        (timer s) (timeout s) (noiseSources s) (trngPosn s) (hash s) (outBits s)
        v (flash s) (nvs s) (now s) (trace s).
Definition set_flash (v : list Z) (s : RNGClass) : RNGClass :=
  mkRNG (block s) (stream s) (credits s) (firstSave s) (initialized s) (trngPending s)
        (timer s) (timeout s) (noiseSources s) (trngPosn s) (hash s) (outBits s)
        (eeprom s) v (nvs s) (now s) (trace s).
Definition set_nvs (v : option (list Z)) (s : RNGClass) : RNGClass :=
  mkRNG (block s) (stream s) (credits s) (firstSave s) (initialized s) (trngPending s)
        (timer s) (timeout s) (noiseSources s) (trngPosn s) (hash s) (outBits s)
        (eeprom s) (flash s) v (now s) (trace s).
(** one read of the world *)
Definition tick (s : RNGClass) : RNGClass :=
  mkRNG (block s) (stream s) (credits s) (firstSave s) (initialized s) (trngPending s)
        (timer s) (timeout s) (noiseSources s) (trngPosn s) (hash s) (outBits s)
        (eeprom s) (flash s) (nvs s) (S (now s)) (trace s).
Definition emit (e : event) (s : RNGClass) : RNGClass :=
  mkRNG (block s) (stream s) (credits s) (firstSave s) (initialized s) (trngPending s)
        (timer s) (timeout s) (noiseSources s) (trngPosn s) (hash s) (outBits s)
        (eeprom s) (flash s) (nvs s) (now s) (e :: trace s).

(** ** Bytes and words *)

Definition wrap (bits x : Z) : Z := x mod 2 ^ bits.

Definition byte_at (b : list Z) (i : nat) : Z := default 0 (b !! i).

(** [b[i]] of a [uint32_t *] laid over the bytes [b] *)
Definition get32 (b : list Z) (i : nat) : Z :=
  byte_at b (4 * i) + byte_at b (4 * i + 1) * 2 ^ 8
  + byte_at b (4 * i + 2) * 2 ^ 16 + byte_at b (4 * i + 3) * 2 ^ 24.

Definition le32 (w : Z) : list Z :=
  [w mod 256; (w / 2 ^ 8) mod 256; (w / 2 ^ 16) mod 256; (w / 2 ^ 24) mod 256].

(** [b[i] = w]; a store outside the buffer is dropped *)
Definition set32 (b : list Z) (i : nat) (w : Z) : list Z :=
  list_inserts (4 * i) (le32 w) b.

(** [++(b[i])] *)
Definition incr32 (b : list Z) (i : nat) : list Z :=
  set32 b i (wrap 32 (get32 b i + 1)).

(** [b[i] ^= v] *)
Definition xor32 (b : list Z) (i : nat) (v : Z) : list Z :=
  set32 b i (Z.lxor (get32 b i) (wrap 32 v)).

(** [while (n > 0) { *output++ ^= *data++; --n; }] with [output = b + off] *)
Fixpoint xor_bytes (off : nat) (data : list Z) (b : list Z) : list Z :=
  match data with
  | [] => b
  | d :: data' => xor_bytes (S off) data' (alter (fun x => wrap 8 (Z.lxor x d)) off b)
  end.

(** [for (posn = 0; posn < n; ++posn) b[posn + 4] ^= src[posn]], the words
    of [src] read through [rd] *)
Definition xor_seed (rd : nat -> Z) (b : list Z) : list Z :=
  fold_left (fun acc posn => xor32 acc (posn + 4) (rd posn)) (seq 0 12) b.

(** the bytes of a run of words *)
Definition bytes_of_words (ws : list Z) : list Z := flat_map le32 ws.

(** the final steps of the one-at-a-time hash applied to the watchdog word *)
Definition jenkins_final (value : Z) : Z :=
  let v1 := wrap 32 (value + wrap 32 (Z.shiftl value 3)) in
  let v2 := Z.lxor v1 (Z.shiftr v1 11) in
  wrap 32 (v2 + wrap 32 (Z.shiftl v2 15)).

(** ** The operations of RNGClass *)

Section Engine.

Variable W : World.

Definition crc8 (tag : Z) (data : list Z) : Z := wrap 8 (crypto_crc8 W tag data).

(** [RNGClass::RNGClass()], for an object in static storage ([RNGClass RNG;]):
    the members the constructor does not name are zero.  The non-volatile
    memory and the watchdog accumulator are whatever they are at power-on. *)
Definition RNGClass_new (ee fl : list Z) (nv : option (list Z)) (h o : Z) : RNGClass :=
  mkRNG (replicate 64 0) (replicate 64 0) 0 true false false
        0 3600000 [] 0 h o ee fl nv O [].

(** [void RNGClass::rekey()] *)
Definition rekey (s : RNGClass) : RNGClass :=
  let b1 := incr32 (block s) 12 in
  let st := hashCore W b1 RNG_ROUNDS in
  let b2 := list_inserts 16 (take 48 st) b1 in
  let b3 := xor32 b2 13 (micros W (now s)) in
  emit EvRekey (tick (set_stream st (set_block b3 s))).

(** the target-dependent middle of [save()]: hand the seed in [stream] to
    the store *)
Definition store_seed (s : RNGClass) : RNGClass :=
  match board W with
  | AVR =>
      let e1 := list_inserts 0 (take (SEED_SIZE - 1) (stream s)) (eeprom s) in
      set_eeprom (<[(SEED_SIZE - 1)%nat := crc8 83 (take (SEED_SIZE - 1) (stream s))]> e1) s
  | DUE =>
      let f0 := <[0%nat := crc8 83 (take SEED_SIZE (stream s))]> (flash s) in
      let f1 := fold_left (fun f posn => <[(posn + 1)%nat := get32 (stream s) posn]> f)
                          (seq 0 12) f0 in
      let f2 := fold_left (fun f posn => <[(posn + 13)%nat := 0xFFFFFFFF]> f)
                          (seq 13 (FLASH_PAGE_WORDS W - 13)) f1 in
      set_flash f2 s
  | ESP32 =>
      if nvs_ok W (now s)
      then tick (set_nvs (Some (take SEED_SIZE (stream s))) s)
      else tick s
  | ESP8266 | GENERIC => s
  end.

(** [void RNGClass::save()] *)
Definition save (s : RNGClass) : RNGClass :=
  let b1 := incr32 (block s) 12 in
  let st := hashCore W b1 RNG_ROUNDS in
  let s1 := emit EvSave (set_stream st (set_block b1 s)) in
  let s2 := store_seed s1 in
  let s3 := rekey s2 in
  tick (set_timer (wrap 32 (millis W (now s3))) s3).

(** the [while (len > 0)] loop of [stir]: one chunk of at most 48 bytes per
    turn.  Every turn consumes at least one byte, so [length data] turns
    are enough. *)
Fixpoint stir_chunks (fuel : nat) (data : list Z) (s : RNGClass) : RNGClass :=
  match fuel with
  | O => s
  | S fuel' =>
      match data with
      | [] => s
      | _ :: _ =>
          let templen := Nat.min 48 (length data) in
          let b := xor_bytes 16 (take templen data) (block s) in
          stir_chunks fuel' (drop templen data) (rekey (set_block b s))
      end
  end.

(** the credit [stir] grants: [credit] as an [unsigned int], clamped to
    [len * 8] when there are bytes *)
Definition stir_credit (len credit : Z) : Z :=
  let credit := wrap (UINT_BITS W) credit in
  if (len <=? credit / 8) && negb (len =? 0)
  then wrap (UINT_BITS W) (len * 8)
  else credit.

(** "Increase the entropy credit": [(uint16_t)(RNG_MAX_CREDITS - credits) >
    credit], then [credits += credit] or [credits = RNG_MAX_CREDITS] *)
Definition stir_grant (credit : Z) (s : RNGClass) : RNGClass :=
  if credit <? wrap 16 (RNG_MAX_CREDITS - credits s)
  then set_credits (wrap (CREDIT_BITS W) (credits s + credit)) s
  else set_credits RNG_MAX_CREDITS s.

(** "Process the supplied input data" *)
Definition stir_mix (data : list Z) (s : RNGClass) : RNGClass :=
  if 0 <? Z.of_nat (length data)
  then stir_chunks (length data) data s
  else rekey s.

(** "Save if this is the first time we have reached max entropy" *)
Definition stir_first_save (s : RNGClass) : RNGClass :=
  if firstSave s && (RNG_MAX_CREDITS <=? credits s)
  then save (set_firstSave false s)
  else s.

(** [void RNGClass::stir(const uint8_t *data, size_t len, unsigned int credit)],
    [data] being the [len] bytes pointed to *)
Definition stir (data : list Z) (credit : Z) (s : RNGClass) : RNGClass :=
  let len := Z.of_nat (length data) in
  stir_first_save (stir_mix data (stir_grant (stir_credit len credit) s)).

(** the Due's part of [mixTRNG]: up to 12 words, stopping at the first
    that is not ready within the polls *)
Fixpoint mix_due (posns : list nat) (s : RNGClass) : RNGClass :=
  match posns with
  | [] => s
  | posn :: rest =>
      if trng_ready W (now s)
      then mix_due rest
             (tick (set_block (xor32 (block s) (posn + 4) (trng_word W (now s))) s))
      else tick s
  end.

(** the watchdog word, once 32 bits are in: [value = hash; hash = 0;
    outBits = 0;] and the final hash steps *)
Definition wdt_take (s : RNGClass) : Z * RNGClass :=
  (jenkins_final (wrap 32 (hash s)), set_wdt 0 0 s).

(** [void RNGClass::mixTRNG()] *)
Definition mixTRNG (s : RNGClass) : RNGClass :=
  match board W with
  | DUE => mix_due (seq 0 12) s
  | ESP8266 | ESP32 =>
      fold_left (fun acc index =>
                   tick (set_block (xor32 (block acc) index (trng_word W (now acc))) acc))
                (seq 4 12) s
  | AVR =>
      if 32 <=? outBits s
      then let '(value, s1) := wdt_take s in
           set_block (xor32 (block s1) 4 value) s1
      else s
  | GENERIC => s
  end.

(** the saved seed [begin] loads, XORed into the words 4..15 of the block *)
Definition load_seed (s : RNGClass) : RNGClass :=
  match board W with
  | AVR =>
      let st := list_inserts 0 (take SEED_SIZE (eeprom s)) (stream s) in
      let s1 := set_stream st s in
      if crc8 83 (take (SEED_SIZE - 1) st) =? byte_at st (SEED_SIZE - 1)
      then set_block (xor_seed (get32 st) (block s1)) s1
      else s1
  | DUE =>
      let s1 :=
        if crc8 83 (bytes_of_words (take 12 (drop 1 (flash s)))) =? default 0 (flash s !! 0%nat)
        then set_block (xor_seed (fun posn => default 0 (flash s !! (posn + 1)%nat)) (block s)) s
        else s in
      mixTRNG s1
  | ESP32 =>
      if nvs_ok W (now s)
      then match nvs s with
           | Some blob =>
               if Nat.eqb (length blob) SEED_SIZE
               then tick (set_block (xor_seed (get32 blob) (block s)) s)
               else tick s
           | None => tick s
           end
      else tick s
  | ESP8266 | GENERIC => s
  end.

(** the head of [begin], up to "No entropy credits for the saved seed": the
    two [memcpy_P] into the block, the saved seed, and the TRNG words of
    the word-TRNG targets *)
Definition begin_loaded (tag : option (list Z)) (s : RNGClass) : RNGClass :=
  let b := list_inserts 16 initRNG (list_inserts 0 tagRNG (block s)) in
  let s1 := load_seed (set_block b (emit (EvBegin tag) s)) in
  if RNG_WORD_TRNG (board W) then mixTRNG s1 else s1.

(** [void RNGClass::begin(const char *tag)]; [tag] is [None] for a null
    pointer and the characters of the string otherwise *)
Definition begin (tag : option (list Z)) (s : RNGClass) : RNGClass :=
  if initialized s then s else
  let s3 := rekey (set_firstSave true (set_credits 0 (begin_loaded tag s))) in
  let s4 := match tag with
            | Some t => stir t 0 s3
            | None => s3
            end in
  let s5 := stir (unique_id W) 0 s4 in
  set_initialized true (save s5).

(** [void RNGClass::addNoiseSource(NoiseSource &source)] *)
Definition addNoiseSource (src : NoiseSource) (s : RNGClass) : RNGClass :=
  if Nat.ltb (length (noiseSources s)) MAX_NOISE_SOURCES
  then set_noiseSources (noiseSources s ++ [src]) s
  else s.

(** [void RNGClass::setAutoSaveTime(uint16_t minutes)] *)
Definition setAutoSaveTime (minutes : Z) (s : RNGClass) : RNGClass :=
  let minutes := wrap 16 minutes in
  let minutes := if minutes =? 0 then 1 else minutes in
  set_timeout (wrap 32 (minutes * 60000)) s.

(** one keystream block of [rand]: [++(block[12]); hashCore(stream, block,
    RNG_ROUNDS);] *)
Definition next_block (s : RNGClass) : RNGClass :=
  let b1 := incr32 (block s) 12 in
  emit EvBlock (set_stream (hashCore W b1 RNG_ROUNDS) (set_block b1 s)).

(** the [while (len > 0)] loop of [rand] with its local [count]; returns
    the bytes copied to the caller's buffer.  Every turn but the last
    takes 64 off [len], so [len] turns are enough. *)
Fixpoint rand_loop (fuel : nat) (len count : Z) (s : RNGClass) : list Z * RNGClass :=
  match fuel with
  | O => ([], s)
  | S fuel' =>
      if 0 <? len then
        let '(count1, s1) :=
          if RNG_REKEY_BLOCKS <=? count then (1, rekey s) else (count + 1, s) in
        let s2 := next_block s1 in
        if len <? 64
        then (take (Z.to_nat len) (stream s2), s2)
        else let '(out, s3) := rand_loop fuel' (len - 64) count1 s2 in
             (take 64 (stream s2) ++ out, s3)
      else ([], s)
  end.

(** the credit [rand] leaves: [(uint16_t)len > (credits / 8)] and
    [credits -= len * 8].  The subtraction is in [size_t] and stored in the
    field; both wrap at a power of two no smaller than the field's, so the
    field's wrap is the one that shows. *)
Definition rand_credits (len c : Z) : Z :=
  if c / 8 <? wrap 16 len then 0 else wrap (CREDIT_BITS W) (c - len * 8).

(** the head of [rand], up to "Generate the random data": the call of
    [begin] when the engine is not initialized, the credit, and the pending
    TRNG words *)
Definition rand_ready (len : Z) (s : RNGClass) : RNGClass :=
  let s1 := if initialized s then s else begin None s in
  let s2 := set_credits (rand_credits len (credits s1)) s1 in
  if trngPending s2
  then set_trngPosn 0 (set_trngPending false (stir [] 0 s2))
  else mixTRNG s2.

(** [void RNGClass::rand(uint8_t *data, size_t len)]: the bytes written to
    [data] and the state after *)
Definition rand (len : Z) (s : RNGClass) : list Z * RNGClass :=
  let len := wrap (SIZE_BITS W) len in
  let '(out, s4) := rand_loop (Z.to_nat len) len 0 (rand_ready len s) in
  (out, rekey s4).

(** [bool RNGClass::available(size_t len) const] *)
Definition available (len : Z) (s : RNGClass) : bool :=
  let len := wrap (SIZE_BITS W) len in
  if RNG_MAX_CREDITS / 8 <=? len
  then RNG_MAX_CREDITS <=? credits s
  else wrap 16 len <=? credits s / 8.

(** [noiseSources[posn]->stir()] *)
Definition poll_source (s : RNGClass) (src : NoiseSource) : RNGClass :=
  fold_left (fun acc dc => stir (fst dc) (snd dc) acc) (ns_stir src (now s)) (tick s).

(** [block[4 + trngPosn] ^= value; ++trngPosn], [trngPosn] being a
    [uint8_t] *)
Definition xor_at_posn (value : Z) (s : RNGClass) : RNGClass :=
  set_trngPosn (wrap 8 (trngPosn s + 1))
    (set_block (xor32 (block s) (4 + Z.to_nat (trngPosn s)) value) s).

(** the TRNG word of [loop] on the Due and the word-TRNG targets *)
Definition loop_trng_word (s : RNGClass) : RNGClass :=
  let s1 := tick (xor_at_posn (trng_word W (now s)) s) in
  let s2 := if 12 <=? trngPosn s1 then set_trngPosn 0 s1 else s1 in
  let s3 := if credits s2 <? RNG_MAX_CREDITS
            then set_credits (wrap (CREDIT_BITS W) (credits s2 + 1)) s2
            else s2 in
  set_trngPending true s3.

(** the watchdog word of [loop] *)
Definition loop_watchdog (s : RNGClass) : RNGClass :=
  if 32 <=? outBits s then
    let '(value, s1) := wdt_take s in
    let s2 := set_credits (wrap (CREDIT_BITS W) (credits s1 + 4)) s1 in
    let s3 := if RNG_MAX_CREDITS <? credits s2 then set_credits RNG_MAX_CREDITS s2 else s2 in
    let s4 := xor_at_posn value s3 in
    if 12 <=? trngPosn s4
    then stir [] 0 (set_trngPending false (set_trngPosn 0 s4))
    else set_trngPending true s4
  else s.

(** the hardware word of [loop], after the sources were polled *)
Definition loop_hw (s1 : RNGClass) : RNGClass :=
  match board W with
  | DUE => if trng_ready W (now s1) then loop_trng_word (tick s1) else tick s1
  | ESP8266 | ESP32 => loop_trng_word s1
  | AVR => loop_watchdog s1
  | GENERIC => s1
  end.

(** [void RNGClass::loop()] *)
Definition loop (s : RNGClass) : RNGClass :=
  let s2 := loop_hw (fold_left poll_source (noiseSources s) s) in
  let s3 := tick s2 in
  if timeout s3 <=? wrap 32 (millis W (now s2) - timer s3)
  then save s3
  else s3.

(** [void RNGClass::destroy()] *)
Definition destroy (s : RNGClass) : RNGClass :=
  let s1 := set_stream (replicate 64 0) (set_block (replicate 64 0) s) in
  let s2 :=
    match board W with
    | AVR => set_eeprom (list_inserts 0 (replicate SEED_SIZE 0xFF) (eeprom s1)) s1
    | DUE => set_flash (list_inserts 0 (replicate (FLASH_PAGE_WORDS W) 0xFFFFFFFF) (flash s1)) s1
    | ESP32 => if nvs_ok W (now s1) then tick (set_nvs None s1) else tick s1
    | ESP8266 | GENERIC => s1
    end in
  set_initialized false s2.

(** ** Sequences of calls *)

Inductive call :=
| CBegin (tag : option (list Z))
| CAddNoiseSource (src : NoiseSource)
| CSetAutoSaveTime (minutes : Z)
| CRand (len : Z)
| CStir (data : list Z) (credit : Z)
| CSave
| CLoop
| CDestroy.

Definition run_call (s : RNGClass) (c : call) : RNGClass :=
  match c with
  | CBegin tag => begin tag s
  | CAddNoiseSource src => addNoiseSource src s
  | CSetAutoSaveTime m => setAutoSaveTime m s
  | CRand len => snd (rand len s)
  | CStir data credit => stir data credit s
  | CSave => save s
  | CLoop => loop s
  | CDestroy => destroy s
  end.

Definition run (calls : list call) (s : RNGClass) : RNGClass :=
  fold_left run_call calls s.

End Engine.


(** ** Reading the trace *)

(** number of rekeys in a trace *)
Fixpoint rekeys (tr : list event) : nat :=
  match tr with
  | [] => 0
  | EvRekey :: tr' => S (rekeys tr')
  | _ :: tr' => rekeys tr'
  end.

(** number of keystream blocks in a trace *)
Fixpoint blocks (tr : list event) : nat :=
  match tr with
  | [] => 0
  | EvBlock :: tr' => S (blocks tr')
  | _ :: tr' => blocks tr'
  end.

(** blocks produced from the state (keystream blocks, and the seed block of
    a save) since the newest rekey of a trace *)
Fixpoint pending_blocks (tr : list event) : nat :=
  match tr with
  | [] => 0
  | EvRekey :: _ => 0
  | EvBegin _ :: tr' => pending_blocks tr'
  | EvBlock :: tr' => S (pending_blocks tr')
  | EvSave :: tr' => S (pending_blocks tr')
  end.

(** at no point of the trace were more than [n] blocks pending *)
Fixpoint runs_le (n : nat) (tr : list event) : bool :=
  match tr with
  | [] => true
  | _ :: tr' => Nat.leb (pending_blocks tr) n && runs_le n tr'
  end.

(** ** Reading the state *)

(** the counter is within the pool *)
Definition credits_ok (s : RNGClass) : Prop := 0 <= credits s <= RNG_MAX_CREDITS.

(** [t] differs from [s] only in the mutable region, the keystream buffer,
    the stores, the watchdog accumulator and the read index *)
Definition quiet (s t : RNGClass) : Prop :=
  credits t = credits s /\ firstSave t = firstSave s /\ initialized t = initialized s /\
  trngPending t = trngPending s /\ trace t = trace s /\
  take 16 (block t) = take 16 (block s).

(** a stretch of trace that ends on a rekey (or is empty), in which a seed
    block is always followed by a rekey at once, and that has no keystream
    block *)
Definition settled (seg : list event) : Prop :=
  pending_blocks seg = 0%nat /\ runs_le 1 seg = true /\ blocks seg = 0%nat.

(** ** The mixing of [stir], as the specification words it *)

(** the input cut into chunks sized to the mutable region: chunk [k] is the
    bytes [48k .. 48k+47] *)
Definition chunks48 (data : list Z) : list (list Z) :=
  map (fun k => take 48 (drop (48 * k) data)) (seq 0 ((length data + 47) / 48)).

(** XOR a chunk onto the mutable region (byte offsets 16..63) *)
Definition xor_chunk (chunk : list Z) (s : RNGClass) : RNGClass :=
  set_block (xor_bytes 16 chunk (block s)) s.

(** "if len == 0, simply rekey; otherwise XOR each chunk onto the mutable
    region, then rekey, before consuming the next chunk" *)
Definition stir_mix_spec (W : World) (data : list Z) (s : RNGClass) : RNGClass :=
  match data with
  | [] => rekey W s
  | _ :: _ => fold_left (fun acc chunk => rekey W (xor_chunk chunk acc)) (chunks48 data) s
  end.

(** rekeys of the mixing of [len] bytes: one when there is nothing to mix,
    one per chunk otherwise *)
Definition mix_rekeys (len : nat) : nat :=
  match len with O => 1%nat | S _ => ((len + 47) / 48)%nat end.

(** ** Worlds to run the engine in

    The theorems below hold in every world.  These two fix one, to run the
    engine on concrete inputs: an AVR with 16-bit [size_t] and an ESP32
    with 32-bit [size_t], both with the 13-bit credit field of the
    library's header, a stand-in for the permutation that adds up bytes,
    and clocks that count. *)

Definition demo_hash (b : list Z) (r : Z) : list Z :=
  let total := fold_left Z.add b 0 in
  map (fun i => (byte_at b i + 3 * byte_at b ((i + 17) mod 64)
                 + (Z.of_nat i + 1) * total + r) mod 256)
      (seq 0 64).

Definition demo_crc8 (tag : Z) (data : list Z) : Z :=
  fold_left (fun acc x => (acc * 7 + x) mod 256) data tag.

Definition demo_avr : World :=
  mkWorld AVR 16 16 ltac:(lia) ltac:(lia) 13 ltac:(lia)
          demo_hash
          ltac:(intros; unfold demo_hash; rewrite length_map; apply length_seq)
          demo_crc8
          (fun n => 4 * Z.of_nat n + 1000) (fun n => Z.of_nat n)
          (fun _ => true) (fun n => 2654435761 * Z.of_nat n)
          [49; 50; 58; 48; 48; 58; 48; 48; 74; 97; 110; 32; 32; 49; 32; 50; 48; 50; 52]
          (fun _ => true) 64.

Definition demo_esp32 : World :=
  mkWorld ESP32 32 32 ltac:(lia) ltac:(lia) 13 ltac:(lia)
          demo_hash
          ltac:(intros; unfold demo_hash; rewrite length_map; apply length_seq)
          demo_crc8
          (fun n => 4 * Z.of_nat n + 1000) (fun n => Z.of_nat n)
          (fun _ => true) (fun n => 2654435761 * Z.of_nat n)
          [1; 2; 3; 4; 5; 6; 0; 0]
          (fun _ => true) 64.

(** a world whose permutation forgets its input, to see what hangs on the
    permutation alone *)
Definition flat_avr : World :=
  mkWorld AVR 16 16 ltac:(lia) ltac:(lia) 13 ltac:(lia)
          (fun _ _ => replicate 64 0)
          ltac:(intros; apply length_replicate)
          demo_crc8
          (fun _ => 0) (fun n => Z.of_nat n)
          (fun _ => true) (fun _ => 0)
          [49; 50; 58; 48; 48; 58; 48; 48; 74; 97; 110; 32; 32; 49; 32; 50; 48; 50; 52]
          (fun _ => true) 64.

(** the engine as constructed, with erased EEPROM and flash and no NVS blob *)
Definition fresh (W : World) : RNGClass :=
  RNGClass_new (replicate 48 0xFF) (replicate (FLASH_PAGE_WORDS W) 0xFFFFFFFF) None 0 0.

(** ** The rest of the class, and more ways to read the state *)

(** [RNGClass::~RNGClass()]: [clean(block); clean(stream);].  The TRNG and
    watchdog registers it writes before are not part of the state. *)
Definition RNGClass_delete (s : RNGClass) : RNGClass :=
  set_stream (replicate 64 0) (set_block (replicate 64 0) s).

(** the sources a sequence of calls hands to [addNoiseSource], in order *)
Definition registered (calls : list call) : list NoiseSource :=
  flat_map (fun c => match c with CAddNoiseSource src => [src] | _ => [] end) calls.

(** [t] has the registry, the auto-save interval and the TRNG position of
    [s] *)
Definition steady (s t : RNGClass) : Prop :=
  noiseSources t = noiseSources s /\ timeout t = timeout s /\ trngPosn t = trngPosn s.

(** [t] has the registry and the auto-save interval of [s], and a TRNG
    position within the twelve words of the mutable region *)
Definition settings_kept (s t : RNGClass) : Prop :=
  noiseSources t = noiseSources s /\ timeout t = timeout s /\ 0 <= trngPosn t < 12.

(** number of seed blocks (saves) in a trace *)
Fixpoint saves (tr : list event) : nat :=
  match tr with
  | [] => 0
  | EvSave :: tr' => S (saves tr')
  | _ :: tr' => saves tr'
  end.

(** a sequence of [stir] calls *)
Definition stir_all (W : World) (inputs : list (list Z * Z)) (s : RNGClass) : RNGClass :=
  fold_left (fun acc dc => stir W (fst dc) (snd dc) acc) inputs s.

(** the watchdog accumulator is empty *)
Definition wdt_idle (s : RNGClass) : Prop := hash s = 0 /\ outBits s = 0.

(** [t] has the watchdog accumulator of [s] *)
Definition wdt_kept (s t : RNGClass) : Prop := hash t = hash s /\ outBits t = outBits s.

(** the block and the keystream buffer have their 64 bytes *)
Definition sized (s : RNGClass) : Prop :=
  length (block s) = 64%nat /\ length (stream s) = 64%nat.

(** the bytes are bytes *)
Definition bytes_ok (l : list Z) : bool := forallb (fun x => (0 <=? x) && (x <? 256)) l.

(** a Due with 256-byte flash pages, to run the engine on concrete inputs *)
Definition demo_due : World :=
  mkWorld DUE 32 32 ltac:(lia) ltac:(lia) 13 ltac:(lia)
          demo_hash
          ltac:(intros; unfold demo_hash; rewrite length_map; apply length_seq)
          demo_crc8
          (fun n => 4 * Z.of_nat n + 1000) (fun n => Z.of_nat n)
          (fun _ => true) (fun n => 2654435761 * Z.of_nat n)
          [1; 2; 3; 4; 5; 6; 7; 8; 9; 10; 11; 12; 13; 14; 15; 16]
          (fun _ => true) 64.

(** ** Rewriting with the facts about fields *)

Create Rewrite HintDb rng.

Ltac rng := autorewrite with rng.

(** * Facts *)

(** ** Buffers: what a store at or above offset 16 leaves alone *)

Lemma fold_left_invariant {A B : Type} (P : A -> Prop) (f : A -> B -> A) (l : list B) (a : A) :
  (forall a x, P a -> P (f a x)) -> P a -> P (fold_left f l a).
Proof.
  intros Hstep. revert a. induction l as [|x l IH]; intros a Ha; simpl; [exact Ha|].
  apply IH, Hstep, Ha.
Qed.

Lemma take_list_inserts_ge (n i : nat) (k l : list Z) :
  (n <= i)%nat -> take n (list_inserts i k l) = take n l.
Proof.
  revert i. induction k as [|y k IH]; intros i Hi; simpl; [reflexivity|].
  rewrite take_insert_ge by exact Hi. apply IH. lia.
Qed.

Lemma prefix_set32 (b : list Z) (i : nat) (w : Z) :
  (4 <= i)%nat -> take 16 (set32 b i w) = take 16 b.
Proof. intros Hi. unfold set32. apply take_list_inserts_ge. lia. Qed.

Lemma prefix_incr32 (b : list Z) (i : nat) :
  (4 <= i)%nat -> take 16 (incr32 b i) = take 16 b.
Proof. intros Hi. unfold incr32. by apply prefix_set32. Qed.

Lemma prefix_xor32 (b : list Z) (i : nat) (v : Z) :
  (4 <= i)%nat -> take 16 (xor32 b i v) = take 16 b.
Proof. intros Hi. unfold xor32. by apply prefix_set32. Qed.

Lemma prefix_xor_bytes (off : nat) (data b : list Z) :
  (16 <= off)%nat -> take 16 (xor_bytes off data b) = take 16 b.
Proof.
  revert off b. induction data as [|d data IH]; intros off b Hoff; simpl; [reflexivity|].
  rewrite IH by lia. by apply take_alter_ge.
Qed.

Lemma prefix_xor_seed (rd : nat -> Z) (b : list Z) :
  take 16 (xor_seed rd b) = take 16 b.
Proof.
  unfold xor_seed. generalize (seq 0 12). intros l. revert b.
  induction l as [|p l IH]; intros b; simpl; [reflexivity|].
  rewrite IH. apply prefix_xor32. lia.
Qed.

Lemma length_xor_bytes (off : nat) (data b : list Z) :
  length (xor_bytes off data b) = length b.
Proof.
  revert off b. induction data as [|d data IH]; intros off b; simpl; [reflexivity|].
  rewrite IH. apply length_alter.
Qed.

Lemma prefix_tag_written (b : list Z) :
  (16 <= length b)%nat ->
  take 16 (list_inserts 16 initRNG (list_inserts 0 tagRNG b)) = tagRNG.
Proof.
  intros Hb. rewrite take_list_inserts_ge by lia.
  rewrite <- (take_drop 16 b) at 1.
  rewrite (list_inserts_0_r tagRNG (take 16 b) (drop 16 b)).
  - reflexivity.
  - rewrite length_take. change (length tagRNG) with 16%nat. lia.
Qed.

(** ** Fields: what each update of the state leaves alone *)
Lemma block_set_block v s : block (set_block v s) = v.
Proof. reflexivity. Qed.
Lemma block_set_stream v s : block (set_stream v s) = block s.
Proof. reflexivity. Qed.
Lemma block_set_credits v s : block (set_credits v s) = block s.
Proof. reflexivity. Qed.
Lemma block_set_firstSave v s : block (set_firstSave v s) = block s.
Proof. reflexivity. Qed.
Lemma block_set_initialized v s : block (set_initialized v s) = block s.
Proof. reflexivity. Qed.
Lemma block_set_trngPending v s : block (set_trngPending v s) = block s.
Proof. reflexivity. Qed.
Lemma block_set_timer v s : block (set_timer v s) = block s.
Proof. reflexivity. Qed.
Lemma block_set_timeout v s : block (set_timeout v s) = block s.
Proof. reflexivity. Qed.
Lemma block_set_noiseSources v s : block (set_noiseSources v s) = block s.
Proof. reflexivity. Qed.
Lemma block_set_trngPosn v s : block (set_trngPosn v s) = block s.
Proof. reflexivity. Qed.
Lemma block_set_eeprom v s : block (set_eeprom v s) = block s.
Proof. reflexivity. Qed.
Lemma block_set_flash v s : block (set_flash v s) = block s.
Proof. reflexivity. Qed.
Lemma block_set_nvs v s : block (set_nvs v s) = block s.
Proof. reflexivity. Qed.
Lemma block_set_wdt h o s : block (set_wdt h o s) = block s.
Proof. reflexivity. Qed.
Lemma block_tick s : block (tick s) = block s.
Proof. reflexivity. Qed.
Lemma block_emit e s : block (emit e s) = block s.
Proof. reflexivity. Qed.
Lemma stream_set_block v s : stream (set_block v s) = stream s.
Proof. reflexivity. Qed.
Lemma stream_set_stream v s : stream (set_stream v s) = v.
Proof. reflexivity. Qed.
Lemma stream_set_credits v s : stream (set_credits v s) = stream s.
Proof. reflexivity. Qed.
Lemma stream_set_firstSave v s : stream (set_firstSave v s) = stream s.
Proof. reflexivity. Qed.
Lemma stream_set_initialized v s : stream (set_initialized v s) = stream s.
Proof. reflexivity. Qed.
Lemma stream_set_trngPending v s : stream (set_trngPending v s) = stream s.
Proof. reflexivity. Qed.
Lemma stream_set_timer v s : stream (set_timer v s) = stream s.
Proof. reflexivity. Qed.
Lemma stream_set_timeout v s : stream (set_timeout v s) = stream s.
Proof. reflexivity. Qed.
Lemma stream_set_noiseSources v s : stream (set_noiseSources v s) = stream s.
Proof. reflexivity. Qed.
Lemma stream_set_trngPosn v s : stream (set_trngPosn v s) = stream s.
Proof. reflexivity. Qed.
Lemma stream_set_eeprom v s : stream (set_eeprom v s) = stream s.
Proof. reflexivity. Qed.
Lemma stream_set_flash v s : stream (set_flash v s) = stream s.
Proof. reflexivity. Qed.
Lemma stream_set_nvs v s : stream (set_nvs v s) = stream s.
Proof. reflexivity. Qed.
Lemma stream_set_wdt h o s : stream (set_wdt h o s) = stream s.
Proof. reflexivity. Qed.
Lemma stream_tick s : stream (tick s) = stream s.
Proof. reflexivity. Qed.
Lemma stream_emit e s : stream (emit e s) = stream s.
Proof. reflexivity. Qed.
Lemma credits_set_block v s : credits (set_block v s) = credits s.
Proof. reflexivity. Qed.
Lemma credits_set_stream v s : credits (set_stream v s) = credits s.
Proof. reflexivity. Qed.
Lemma credits_set_credits v s : credits (set_credits v s) = v.
Proof. reflexivity. Qed.
Lemma credits_set_firstSave v s : credits (set_firstSave v s) = credits s.
Proof. reflexivity. Qed.
Lemma credits_set_initialized v s : credits (set_initialized v s) = credits s.
Proof. reflexivity. Qed.
Lemma credits_set_trngPending v s : credits (set_trngPending v s) = credits s.
Proof. reflexivity. Qed.
Lemma credits_set_timer v s : credits (set_timer v s) = credits s.
Proof. reflexivity. Qed.
Lemma credits_set_timeout v s : credits (set_timeout v s) = credits s.
Proof. reflexivity. Qed.
Lemma credits_set_noiseSources v s : credits (set_noiseSources v s) = credits s.
Proof. reflexivity. Qed.
Lemma credits_set_trngPosn v s : credits (set_trngPosn v s) = credits s.
Proof. reflexivity. Qed.
Lemma credits_set_eeprom v s : credits (set_eeprom v s) = credits s.
Proof. reflexivity. Qed.
Lemma credits_set_flash v s : credits (set_flash v s) = credits s.
Proof. reflexivity. Qed.
Lemma credits_set_nvs v s : credits (set_nvs v s) = credits s.
Proof. reflexivity. Qed.
Lemma credits_set_wdt h o s : credits (set_wdt h o s) = credits s.
Proof. reflexivity. Qed.
Lemma credits_tick s : credits (tick s) = credits s.
Proof. reflexivity. Qed.
Lemma credits_emit e s : credits (emit e s) = credits s.
Proof. reflexivity. Qed.
Lemma firstSave_set_block v s : firstSave (set_block v s) = firstSave s.
Proof. reflexivity. Qed.
Lemma firstSave_set_stream v s : firstSave (set_stream v s) = firstSave s.
Proof. reflexivity. Qed.
Lemma firstSave_set_credits v s : firstSave (set_credits v s) = firstSave s.
Proof. reflexivity. Qed.
Lemma firstSave_set_firstSave v s : firstSave (set_firstSave v s) = v.
Proof. reflexivity. Qed.
Lemma firstSave_set_initialized v s : firstSave (set_initialized v s) = firstSave s.
Proof. reflexivity. Qed.
Lemma firstSave_set_trngPending v s : firstSave (set_trngPending v s) = firstSave s.
Proof. reflexivity. Qed.
Lemma firstSave_set_timer v s : firstSave (set_timer v s) = firstSave s.
Proof. reflexivity. Qed.
Lemma firstSave_set_timeout v s : firstSave (set_timeout v s) = firstSave s.
Proof. reflexivity. Qed.
Lemma firstSave_set_noiseSources v s : firstSave (set_noiseSources v s) = firstSave s.
Proof. reflexivity. Qed.
Lemma firstSave_set_trngPosn v s : firstSave (set_trngPosn v s) = firstSave s.
Proof. reflexivity. Qed.
Lemma firstSave_set_eeprom v s : firstSave (set_eeprom v s) = firstSave s.
Proof. reflexivity. Qed.
Lemma firstSave_set_flash v s : firstSave (set_flash v s) = firstSave s.
Proof. reflexivity. Qed.
Lemma firstSave_set_nvs v s : firstSave (set_nvs v s) = firstSave s.
Proof. reflexivity. Qed.
Lemma firstSave_set_wdt h o s : firstSave (set_wdt h o s) = firstSave s.
Proof. reflexivity. Qed.
Lemma firstSave_tick s : firstSave (tick s) = firstSave s.
Proof. reflexivity. Qed.
Lemma firstSave_emit e s : firstSave (emit e s) = firstSave s.
Proof. reflexivity. Qed.
Lemma initialized_set_block v s : initialized (set_block v s) = initialized s.
Proof. reflexivity. Qed.
Lemma initialized_set_stream v s : initialized (set_stream v s) = initialized s.
Proof. reflexivity. Qed.
Lemma initialized_set_credits v s : initialized (set_credits v s) = initialized s.
Proof. reflexivity. Qed.
Lemma initialized_set_firstSave v s : initialized (set_firstSave v s) = initialized s.
Proof. reflexivity. Qed.
Lemma initialized_set_initialized v s : initialized (set_initialized v s) = v.
Proof. reflexivity. Qed.
Lemma initialized_set_trngPending v s : initialized (set_trngPending v s) = initialized s.
Proof. reflexivity. Qed.
Lemma initialized_set_timer v s : initialized (set_timer v s) = initialized s.
Proof. reflexivity. Qed.
Lemma initialized_set_timeout v s : initialized (set_timeout v s) = initialized s.
Proof. reflexivity. Qed.
Lemma initialized_set_noiseSources v s : initialized (set_noiseSources v s) = initialized s.
Proof. reflexivity. Qed.
Lemma initialized_set_trngPosn v s : initialized (set_trngPosn v s) = initialized s.
Proof. reflexivity. Qed.
Lemma initialized_set_eeprom v s : initialized (set_eeprom v s) = initialized s.
Proof. reflexivity. Qed.
Lemma initialized_set_flash v s : initialized (set_flash v s) = initialized s.
Proof. reflexivity. Qed.
Lemma initialized_set_nvs v s : initialized (set_nvs v s) = initialized s.
Proof. reflexivity. Qed.
Lemma initialized_set_wdt h o s : initialized (set_wdt h o s) = initialized s.
Proof. reflexivity. Qed.
Lemma initialized_tick s : initialized (tick s) = initialized s.
Proof. reflexivity. Qed.
Lemma initialized_emit e s : initialized (emit e s) = initialized s.
Proof. reflexivity. Qed.
Lemma trngPending_set_block v s : trngPending (set_block v s) = trngPending s.
Proof. reflexivity. Qed.
Lemma trngPending_set_stream v s : trngPending (set_stream v s) = trngPending s.
Proof. reflexivity. Qed.
Lemma trngPending_set_credits v s : trngPending (set_credits v s) = trngPending s.
Proof. reflexivity. Qed.
Lemma trngPending_set_firstSave v s : trngPending (set_firstSave v s) = trngPending s.
Proof. reflexivity. Qed.
Lemma trngPending_set_initialized v s : trngPending (set_initialized v s) = trngPending s.
Proof. reflexivity. Qed.
Lemma trngPending_set_trngPending v s : trngPending (set_trngPending v s) = v.
Proof. reflexivity. Qed.
Lemma trngPending_set_timer v s : trngPending (set_timer v s) = trngPending s.
Proof. reflexivity. Qed.
Lemma trngPending_set_timeout v s : trngPending (set_timeout v s) = trngPending s.
Proof. reflexivity. Qed.
Lemma trngPending_set_noiseSources v s : trngPending (set_noiseSources v s) = trngPending s.
Proof. reflexivity. Qed.
Lemma trngPending_set_trngPosn v s : trngPending (set_trngPosn v s) = trngPending s.
Proof. reflexivity. Qed.
Lemma trngPending_set_eeprom v s : trngPending (set_eeprom v s) = trngPending s.
Proof. reflexivity. Qed.
Lemma trngPending_set_flash v s : trngPending (set_flash v s) = trngPending s.
Proof. reflexivity. Qed.
Lemma trngPending_set_nvs v s : trngPending (set_nvs v s) = trngPending s.
Proof. reflexivity. Qed.
Lemma trngPending_set_wdt h o s : trngPending (set_wdt h o s) = trngPending s.
Proof. reflexivity. Qed.
Lemma trngPending_tick s : trngPending (tick s) = trngPending s.
Proof. reflexivity. Qed.
Lemma trngPending_emit e s : trngPending (emit e s) = trngPending s.
Proof. reflexivity. Qed.
Lemma trace_set_block v s : trace (set_block v s) = trace s.
Proof. reflexivity. Qed.
Lemma trace_set_stream v s : trace (set_stream v s) = trace s.
Proof. reflexivity. Qed.
Lemma trace_set_credits v s : trace (set_credits v s) = trace s.
Proof. reflexivity. Qed.
Lemma trace_set_firstSave v s : trace (set_firstSave v s) = trace s.
Proof. reflexivity. Qed.
Lemma trace_set_initialized v s : trace (set_initialized v s) = trace s.
Proof. reflexivity. Qed.
Lemma trace_set_trngPending v s : trace (set_trngPending v s) = trace s.
Proof. reflexivity. Qed.
Lemma trace_set_timer v s : trace (set_timer v s) = trace s.
Proof. reflexivity. Qed.
Lemma trace_set_timeout v s : trace (set_timeout v s) = trace s.
Proof. reflexivity. Qed.
Lemma trace_set_noiseSources v s : trace (set_noiseSources v s) = trace s.
Proof. reflexivity. Qed.
Lemma trace_set_trngPosn v s : trace (set_trngPosn v s) = trace s.
Proof. reflexivity. Qed.
Lemma trace_set_eeprom v s : trace (set_eeprom v s) = trace s.
Proof. reflexivity. Qed.
Lemma trace_set_flash v s : trace (set_flash v s) = trace s.
Proof. reflexivity. Qed.
Lemma trace_set_nvs v s : trace (set_nvs v s) = trace s.
Proof. reflexivity. Qed.
Lemma trace_set_wdt h o s : trace (set_wdt h o s) = trace s.
Proof. reflexivity. Qed.
Lemma trace_tick s : trace (tick s) = trace s.
Proof. reflexivity. Qed.
Lemma trace_emit e s : trace (emit e s) = e :: trace s.
Proof. reflexivity. Qed.

#[export] Hint Rewrite block_set_block block_set_stream block_set_credits block_set_firstSave : rng.
#[export] Hint Rewrite block_set_initialized block_set_trngPending : rng.
#[export] Hint Rewrite block_set_timer block_set_timeout block_set_noiseSources block_set_trngPosn : rng.
#[export] Hint Rewrite block_set_eeprom block_set_flash : rng.
#[export] Hint Rewrite block_set_nvs block_set_wdt block_tick block_emit : rng.
#[export] Hint Rewrite stream_set_block stream_set_stream : rng.
#[export] Hint Rewrite stream_set_credits stream_set_firstSave stream_set_initialized stream_set_trngPending : rng.
#[export] Hint Rewrite stream_set_timer stream_set_timeout : rng.
#[export] Hint Rewrite stream_set_noiseSources stream_set_trngPosn stream_set_eeprom stream_set_flash : rng.
#[export] Hint Rewrite stream_set_nvs stream_set_wdt : rng.
#[export] Hint Rewrite stream_tick stream_emit credits_set_block credits_set_stream : rng.
#[export] Hint Rewrite credits_set_credits credits_set_firstSave : rng.
#[export] Hint Rewrite credits_set_initialized credits_set_trngPending credits_set_timer credits_set_timeout : rng.
#[export] Hint Rewrite credits_set_noiseSources credits_set_trngPosn : rng.
#[export] Hint Rewrite credits_set_eeprom credits_set_flash credits_set_nvs credits_set_wdt : rng.
#[export] Hint Rewrite credits_tick credits_emit : rng.
#[export] Hint Rewrite firstSave_set_block firstSave_set_stream firstSave_set_credits firstSave_set_firstSave : rng.
#[export] Hint Rewrite firstSave_set_initialized firstSave_set_trngPending : rng.
#[export] Hint Rewrite firstSave_set_timer firstSave_set_timeout firstSave_set_noiseSources firstSave_set_trngPosn : rng.
#[export] Hint Rewrite firstSave_set_eeprom firstSave_set_flash : rng.
#[export] Hint Rewrite firstSave_set_nvs firstSave_set_wdt firstSave_tick firstSave_emit : rng.
#[export] Hint Rewrite initialized_set_block initialized_set_stream : rng.
#[export] Hint Rewrite initialized_set_credits initialized_set_firstSave initialized_set_initialized initialized_set_trngPending : rng.
#[export] Hint Rewrite initialized_set_timer initialized_set_timeout : rng.
#[export] Hint Rewrite initialized_set_noiseSources initialized_set_trngPosn initialized_set_eeprom initialized_set_flash : rng.
#[export] Hint Rewrite initialized_set_nvs initialized_set_wdt : rng.
#[export] Hint Rewrite initialized_tick initialized_emit trngPending_set_block trngPending_set_stream : rng.
#[export] Hint Rewrite trngPending_set_credits trngPending_set_firstSave : rng.
#[export] Hint Rewrite trngPending_set_initialized trngPending_set_trngPending trngPending_set_timer trngPending_set_timeout : rng.
#[export] Hint Rewrite trngPending_set_noiseSources trngPending_set_trngPosn : rng.
#[export] Hint Rewrite trngPending_set_eeprom trngPending_set_flash trngPending_set_nvs trngPending_set_wdt : rng.
#[export] Hint Rewrite trngPending_tick trngPending_emit : rng.
#[export] Hint Rewrite trace_set_block trace_set_stream trace_set_credits trace_set_firstSave : rng.
#[export] Hint Rewrite trace_set_initialized trace_set_trngPending : rng.
#[export] Hint Rewrite trace_set_timer trace_set_timeout trace_set_noiseSources trace_set_trngPosn : rng.
#[export] Hint Rewrite trace_set_eeprom trace_set_flash : rng.
#[export] Hint Rewrite trace_set_nvs trace_set_wdt trace_tick trace_emit : rng.

(** ** Wrap-around *)

Lemma wrap_range (bits x : Z) : 0 <= bits -> 0 <= wrap bits x < 2 ^ bits.
Proof. intros Hb. unfold wrap. apply Z.mod_pos_bound. by apply Z.pow_pos_nonneg. Qed.

Lemma wrap_small (bits x : Z) : 0 <= x < 2 ^ bits -> wrap bits x = x.
Proof. intros Hx. unfold wrap. by apply Z.mod_small. Qed.

Lemma pow2_ge (lo bits : Z) : 0 <= lo <= bits -> 2 ^ lo <= 2 ^ bits.
Proof. intros H. apply Z.pow_le_mono_r; lia. Qed.

(** a multiple of [2 ^ hi] disappears in a field of at most [hi] bits *)
Lemma wrap_drop_multiple (bits hi x k : Z) :
  0 <= bits <= hi -> wrap bits (x - 2 ^ hi * k) = wrap bits x.
Proof.
  intros H. unfold wrap.
  replace (2 ^ hi) with (2 ^ bits * 2 ^ (hi - bits)).
  - replace (x - 2 ^ bits * 2 ^ (hi - bits) * k) with (x + (- (2 ^ (hi - bits) * k)) * 2 ^ bits) by ring.
    apply Z_mod_plus_full.
  - rewrite <- Z.pow_add_r by lia. f_equal. lia.
Qed.

Section Facts.
Variable W : World.

Lemma credit_field_holds_max : 512 <= 2 ^ CREDIT_BITS W.
Proof.
  pose proof (CREDIT_BITS_range W) as H.
  pose proof (pow2_ge 9 (CREDIT_BITS W) ltac:(lia)) as Hp.
  by change (2 ^ 9) with 512 in Hp.
Qed.

(** *** rekey *)
Lemma credits_rekey s : credits (rekey W s) = credits s.
Proof. reflexivity. Qed.
Lemma firstSave_rekey s : firstSave (rekey W s) = firstSave s.
Proof. reflexivity. Qed.
Lemma initialized_rekey s : initialized (rekey W s) = initialized s.
Proof. reflexivity. Qed.
Lemma trngPending_rekey s : trngPending (rekey W s) = trngPending s.
Proof. reflexivity. Qed.
Lemma trace_rekey s : trace (rekey W s) = EvRekey :: trace s.
Proof. reflexivity. Qed.
Lemma prefix_rekey s : take 16 (block (rekey W s)) = take 16 (block s).
Proof.
  unfold rekey. rng.
  rewrite prefix_xor32 by lia. rewrite take_list_inserts_ge by lia.
  apply prefix_incr32. lia.
Qed.
Hint Rewrite credits_rekey firstSave_rekey initialized_rekey trngPending_rekey
     trace_rekey prefix_rekey : rng.

(** *** save *)
Lemma store_seed_frame s :
  block (store_seed W s) = block s /\ stream (store_seed W s) = stream s /\
  credits (store_seed W s) = credits s /\ firstSave (store_seed W s) = firstSave s /\
  initialized (store_seed W s) = initialized s /\
  trngPending (store_seed W s) = trngPending s /\ trace (store_seed W s) = trace s.
Proof. unfold store_seed. destruct (board W); repeat case_match; rng; auto 10. Qed.
Lemma block_store_seed s : block (store_seed W s) = block s.
Proof. apply store_seed_frame. Qed.
Lemma credits_store_seed s : credits (store_seed W s) = credits s.
Proof. apply store_seed_frame. Qed.
Lemma firstSave_store_seed s : firstSave (store_seed W s) = firstSave s.
Proof. apply store_seed_frame. Qed.
Lemma initialized_store_seed s : initialized (store_seed W s) = initialized s.
Proof. apply store_seed_frame. Qed.
Lemma trngPending_store_seed s : trngPending (store_seed W s) = trngPending s.
Proof. apply store_seed_frame. Qed.
Lemma trace_store_seed s : trace (store_seed W s) = trace s.
Proof. apply store_seed_frame. Qed.
Hint Rewrite block_store_seed credits_store_seed firstSave_store_seed
     initialized_store_seed trngPending_store_seed trace_store_seed : rng.

Lemma credits_save s : credits (save W s) = credits s.
Proof. unfold save. by rng. Qed.
Lemma firstSave_save s : firstSave (save W s) = firstSave s.
Proof. unfold save. by rng. Qed.
Lemma initialized_save s : initialized (save W s) = initialized s.
Proof. unfold save. by rng. Qed.
Lemma trngPending_save s : trngPending (save W s) = trngPending s.
Proof. unfold save. by rng. Qed.
Lemma trace_save s : trace (save W s) = EvRekey :: EvSave :: trace s.
Proof. unfold save. by rng. Qed.
Lemma prefix_save s : take 16 (block (save W s)) = take 16 (block s).
Proof. unfold save. rng. apply prefix_incr32. lia. Qed.
Hint Rewrite credits_save firstSave_save initialized_save trngPending_save
     trace_save prefix_save : rng.

(** *** stir *)
Lemma stir_chunks_frame fuel data s :
  credits (stir_chunks W fuel data s) = credits s /\
  firstSave (stir_chunks W fuel data s) = firstSave s /\
  initialized (stir_chunks W fuel data s) = initialized s /\
  trngPending (stir_chunks W fuel data s) = trngPending s /\
  take 16 (block (stir_chunks W fuel data s)) = take 16 (block s).
Proof.
  revert data s. induction fuel as [|fuel IH]; intros data s; [done|].
  destruct data as [|d data]; [done|].
  cbn [stir_chunks].
  destruct (IH (drop (48 `min` length (d :: data)) (d :: data))
               (rekey W (set_block (xor_bytes 16 (take (48 `min` length (d :: data)) (d :: data))
                                              (block s)) s)))
    as (-> & -> & -> & -> & ->).
  rng. by rewrite prefix_xor_bytes by lia.
Qed.

Lemma stir_mix_frame data s :
  credits (stir_mix W data s) = credits s /\
  firstSave (stir_mix W data s) = firstSave s /\
  initialized (stir_mix W data s) = initialized s /\
  trngPending (stir_mix W data s) = trngPending s /\
  take 16 (block (stir_mix W data s)) = take 16 (block s).
Proof.
  unfold stir_mix. case_match; [apply stir_chunks_frame|by rng].
Qed.
Lemma credits_stir_mix data s : credits (stir_mix W data s) = credits s.
Proof. apply stir_mix_frame. Qed.
Lemma firstSave_stir_mix data s : firstSave (stir_mix W data s) = firstSave s.
Proof. apply stir_mix_frame. Qed.
Lemma initialized_stir_mix data s : initialized (stir_mix W data s) = initialized s.
Proof. apply stir_mix_frame. Qed.
Lemma trngPending_stir_mix data s : trngPending (stir_mix W data s) = trngPending s.
Proof. apply stir_mix_frame. Qed.
Lemma prefix_stir_mix data s : take 16 (block (stir_mix W data s)) = take 16 (block s).
Proof. apply stir_mix_frame. Qed.
Hint Rewrite credits_stir_mix firstSave_stir_mix initialized_stir_mix
     trngPending_stir_mix prefix_stir_mix : rng.

Lemma credits_stir_first_save s : credits (stir_first_save W s) = credits s.
Proof. unfold stir_first_save. case_match; by rng. Qed.
Lemma initialized_stir_first_save s : initialized (stir_first_save W s) = initialized s.
Proof. unfold stir_first_save. case_match; by rng. Qed.
Lemma trngPending_stir_first_save s : trngPending (stir_first_save W s) = trngPending s.
Proof. unfold stir_first_save. case_match; by rng. Qed.
Lemma prefix_stir_first_save s :
  take 16 (block (stir_first_save W s)) = take 16 (block s).
Proof. unfold stir_first_save. case_match; by rng. Qed.
Hint Rewrite credits_stir_first_save initialized_stir_first_save
     trngPending_stir_first_save prefix_stir_first_save : rng.

Lemma block_stir_grant c s : block (stir_grant W c s) = block s.
Proof. unfold stir_grant. by case_match. Qed.
Lemma firstSave_stir_grant c s : firstSave (stir_grant W c s) = firstSave s.
Proof. unfold stir_grant. by case_match. Qed.
Lemma initialized_stir_grant c s : initialized (stir_grant W c s) = initialized s.
Proof. unfold stir_grant. by case_match. Qed.
Lemma trngPending_stir_grant c s : trngPending (stir_grant W c s) = trngPending s.
Proof. unfold stir_grant. by case_match. Qed.
Lemma trace_stir_grant c s : trace (stir_grant W c s) = trace s.
Proof. unfold stir_grant. by case_match. Qed.
Hint Rewrite block_stir_grant firstSave_stir_grant initialized_stir_grant
     trngPending_stir_grant trace_stir_grant : rng.

Lemma stir_credit_nonneg len credit : 0 <= stir_credit W len credit.
Proof.
  pose proof (UINT_BITS_ge W).
  unfold stir_credit. case_match; apply wrap_range; lia.
Qed.

(** a grant keeps the counter within the pool, whatever is granted *)
Lemma stir_grant_ok c s : 0 <= c -> credits_ok s -> credits_ok (stir_grant W c s).
Proof.
  intros Hc [Hlo Hhi]. pose proof credit_field_holds_max as Hmax.
  unfold credits_ok, stir_grant, RNG_MAX_CREDITS in *.
  rewrite (wrap_small 16 (384 - credits s)) by lia.
  case_match; rng; [|lia].
  apply Z.ltb_lt in H. rewrite wrap_small by lia. lia.
Qed.

(** a grant of nothing changes nothing *)
Lemma stir_grant_zero s : 0 <= credits s < 2 ^ CREDIT_BITS W -> stir_grant W 0 s = set_credits (credits s) s.
Proof.
  intros Hc. pose proof (CREDIT_BITS_range W) as Hb.
  pose proof (pow2_ge (CREDIT_BITS W) 16 ltac:(lia)) as Hp.
  unfold stir_grant, RNG_MAX_CREDITS.
  destruct (0 <? wrap 16 (384 - credits s)) eqn:E.
  - by rewrite Z.add_0_r, wrap_small.
  - apply Z.ltb_ge in E. pose proof (wrap_range 16 (384 - credits s) ltac:(lia)) as Hr.
    assert (wrap 16 (384 - credits s) = 0) as E0 by lia.
    unfold wrap in E0. apply Z.mod_divide in E0; [|lia].
    destruct E0 as [k Hk]. change (2 ^ 16) with 65536 in *.
    f_equal. lia.
Qed.

Lemma credits_stir data credit s :
  credits (stir W data credit s)
  = credits (stir_grant W (stir_credit W (Z.of_nat (length data)) credit) s).
Proof. unfold stir. by rng. Qed.
Lemma initialized_stir data credit s : initialized (stir W data credit s) = initialized s.
Proof. unfold stir. by rng. Qed.
Lemma trngPending_stir data credit s : trngPending (stir W data credit s) = trngPending s.
Proof. unfold stir. by rng. Qed.
Lemma prefix_stir data credit s :
  take 16 (block (stir W data credit s)) = take 16 (block s).
Proof. unfold stir. by rng. Qed.
Hint Rewrite initialized_stir trngPending_stir prefix_stir : rng.

(** the counter after a stir: the sum, saturating at RNG_MAX_CREDITS *)
Lemma credits_stir_saturates data credit s :
  credits_ok s ->
  credits (stir W data credit s)
  = Z.min RNG_MAX_CREDITS (credits s + stir_credit W (Z.of_nat (length data)) credit).
Proof.
  intros [Hlo Hhi]. pose proof credit_field_holds_max as Hmax.
  pose proof (stir_credit_nonneg (Z.of_nat (length data)) credit) as Hc.
  rewrite credits_stir. unfold stir_grant, RNG_MAX_CREDITS in *.
  rewrite (wrap_small 16 (384 - credits s)) by lia.
  destruct (_ <? 384 - credits s) eqn:E; rng.
  - apply Z.ltb_lt in E. rewrite wrap_small by lia. lia.
  - apply Z.ltb_ge in E. lia.
Qed.

Lemma stir_ok data credit s : credits_ok s -> credits_ok (stir W data credit s).
Proof.
  intros Hs. unfold credits_ok. rewrite credits_stir.
  apply stir_grant_ok; [apply stir_credit_nonneg|done].
Qed.

Lemma stir_credit_zero len : 0 <= len -> stir_credit W len 0 = 0.
Proof.
  intros Hlen. pose proof (UINT_BITS_ge W).
  assert (0 < 2 ^ UINT_BITS W) by (apply Z.pow_pos_nonneg; lia).
  unfold stir_credit. rewrite (wrap_small (UINT_BITS W) 0) by lia.
  change (0 / 8) with 0.
  destruct (len <=? 0) eqn:E1; destruct (len =? 0) eqn:E2; simpl; try done.
  apply Z.leb_le in E1. apply Z.eqb_neq in E2. lia.
Qed.

(** a stir that claims no credit leaves the counter as it is *)
Lemma credits_stir_zero data s :
  0 <= credits s < 2 ^ CREDIT_BITS W -> credits (stir W data 0 s) = credits s.
Proof.
  intros Hc. rewrite credits_stir, stir_credit_zero by lia.
  rewrite stir_grant_zero by done. by rng.
Qed.

(** *** mixTRNG, the load of the seed, begin *)

Lemma quiet_refl s : quiet s s.
Proof. by repeat split. Qed.

Lemma quiet_trans s t u : quiet s t -> quiet t u -> quiet s u.
Proof. unfold quiet. intros (?&?&?&?&?&?) (?&?&?&?&?&?). repeat split; congruence. Qed.

Lemma quiet_xor32 s i v :
  (4 <= i)%nat -> quiet s (tick (set_block (xor32 (block s) i v) s)).
Proof. intros Hi. unfold quiet. rng. by rewrite prefix_xor32 by done. Qed.

Lemma quiet_mix_due posns s : quiet s (mix_due W posns s).
Proof.
  revert s. induction posns as [|p posns IH]; intros s; simpl; [apply quiet_refl|].
  case_match.
  - eapply quiet_trans; [|apply IH]. apply quiet_xor32. lia.
  - unfold quiet. by rng.
Qed.

Lemma quiet_mix_words idxs s :
  Forall (fun i => (4 <= i)%nat) idxs ->
  quiet s (fold_left (fun acc index =>
                        tick (set_block (xor32 (block acc) index (trng_word W (now acc))) acc))
                     idxs s).
Proof.
  intros Hall. revert s. induction Hall as [|i idxs Hi _ IH]; intros s; simpl.
  - apply quiet_refl.
  - eapply quiet_trans; [|apply IH]. by apply quiet_xor32.
Qed.

Lemma seq_4_12_ge : Forall (fun i => (4 <= i)%nat) (seq 4 12).
Proof. apply Forall_forall. intros i Hi. apply elem_of_seq in Hi. lia. Qed.

Lemma quiet_mixTRNG s : quiet s (mixTRNG W s).
Proof.
  unfold mixTRNG. destruct (board W).
  - case_match; [|apply quiet_refl]. unfold wdt_take, quiet. rng.
    by rewrite prefix_xor32 by lia.
  - apply quiet_mix_due.
  - apply quiet_mix_words, seq_4_12_ge.
  - apply quiet_mix_words, seq_4_12_ge.
  - apply quiet_refl.
Qed.

Lemma quiet_load_seed s : quiet s (load_seed W s).
Proof.
  unfold load_seed. destruct (board W).
  - case_match; unfold quiet; rng; by rewrite ?prefix_xor_seed.
  - eapply quiet_trans; [|apply quiet_mixTRNG].
    case_match; unfold quiet; rng; by rewrite ?prefix_xor_seed.
  - apply quiet_refl.
  - repeat case_match; unfold quiet; rng; by rewrite ?prefix_xor_seed.
  - apply quiet_refl.
Qed.

Lemma quiet_begin_loaded tag s :
  quiet (set_block (list_inserts 16 initRNG (list_inserts 0 tagRNG (block s)))
                   (emit (EvBegin tag) s))
        (begin_loaded W tag s).
Proof.
  unfold begin_loaded. case_match.
  - eapply quiet_trans; [apply quiet_load_seed|apply quiet_mixTRNG].
  - apply quiet_load_seed.
Qed.

Lemma begin_eq tag s :
  begin W tag s =
  if initialized s then s else
  let s3 := rekey W (set_firstSave true (set_credits 0 (begin_loaded W tag s))) in
  let s4 := match tag with Some t => stir W t 0 s3 | None => s3 end in
  set_initialized true (save W (stir W (unique_id W) 0 s4)).
Proof. reflexivity. Qed.

Lemma initialized_begin tag s : initialized (begin W tag s) = true.
Proof. rewrite begin_eq. case_match; [done|]. cbv zeta. by rng. Qed.

Lemma begin_initialized tag s : initialized s = true -> begin W tag s = s.
Proof. intros H. rewrite begin_eq. by rewrite H. Qed.

Lemma credits_begin tag s :
  credits (begin W tag s) = if initialized s then credits s else 0.
Proof.
  pose proof credit_field_holds_max as Hmax.
  rewrite begin_eq. case_match; [done|]. cbv zeta. rng.
  rewrite credits_stir_zero.
  - destruct tag; [rewrite credits_stir_zero|]; rng; lia.
  - destruct tag; [rewrite credits_stir_zero|]; rng; lia.
Qed.

Lemma prefix_begin tag s :
  take 16 (block (begin W tag s))
  = if initialized s then take 16 (block s)
    else take 16 (list_inserts 16 initRNG (list_inserts 0 tagRNG (block s))).
Proof.
  rewrite begin_eq. case_match; [done|]. cbv zeta. rng.
  destruct (quiet_begin_loaded tag s) as (_&_&_&_&_&Hp).
  destruct tag; rng; rewrite Hp; by rng.
Qed.

Lemma begin_ok tag s : credits_ok s -> credits_ok (begin W tag s).
Proof.
  intros Hs. unfold credits_ok. rewrite credits_begin.
  case_match; [done|]. unfold RNG_MAX_CREDITS. lia.
Qed.

(** *** rand *)

Lemma quiet_next_block s :
  credits (next_block W s) = credits s /\ firstSave (next_block W s) = firstSave s /\
  initialized (next_block W s) = initialized s /\
  trngPending (next_block W s) = trngPending s /\
  take 16 (block (next_block W s)) = take 16 (block s).
Proof. unfold next_block. rng. by rewrite prefix_incr32 by lia. Qed.

Lemma trace_next_block s : trace (next_block W s) = EvBlock :: trace s.
Proof. reflexivity. Qed.


Lemma rand_loop_eq fuel len count s :
  rand_loop W (S fuel) len count s =
  if 0 <? len then
    let count1 := if RNG_REKEY_BLOCKS <=? count then 1 else count + 1 in
    let s2 := next_block W (if RNG_REKEY_BLOCKS <=? count then rekey W s else s) in
    if len <? 64
    then (take (Z.to_nat len) (stream s2), s2)
    else (take 64 (stream s2) ++ fst (rand_loop W fuel (len - 64) count1 s2),
          snd (rand_loop W fuel (len - 64) count1 s2))
  else ([], s).
Proof.
  cbn [rand_loop]. repeat case_match; simplify_eq; try done.
  all: by match goal with H : rand_loop _ _ _ _ _ = _ |- _ => rewrite H end.
Qed.

Lemma rand_loop_frame fuel len count s :
  credits (snd (rand_loop W fuel len count s)) = credits s /\
  firstSave (snd (rand_loop W fuel len count s)) = firstSave s /\
  initialized (snd (rand_loop W fuel len count s)) = initialized s /\
  take 16 (block (snd (rand_loop W fuel len count s))) = take 16 (block s).
Proof.
  revert len count s. induction fuel as [|fuel IH]; intros len count s; [done|].
  rewrite rand_loop_eq. case_match; [|done]. cbv zeta.
  set (s2 := next_block W _).
  assert (credits s2 = credits s /\ firstSave s2 = firstSave s /\
          initialized s2 = initialized s /\ take 16 (block s2) = take 16 (block s))
    as (Hc & Hf & Hi & Hp).
  { subst s2. destruct (quiet_next_block (if RNG_REKEY_BLOCKS <=? count then rekey W s else s))
      as (-> & -> & -> & _ & ->). case_match; by rng. }
  case_match; cbn [snd]; [done|].
  destruct (IH (len - 64) (if RNG_REKEY_BLOCKS <=? count then 1 else count + 1) s2)
    as (-> & -> & -> & ->). done.
Qed.


(** more turns than needed change nothing *)
Lemma rand_loop_fuel fuel fuel' len count s :
  len <= Z.of_nat fuel -> len <= Z.of_nat fuel' ->
  rand_loop W fuel len count s = rand_loop W fuel' len count s.
Proof.
  revert fuel' len count s. induction fuel as [|fuel IH]; intros fuel' len count s H1 H2.
  - destruct fuel' as [|fuel']; [done|]. rewrite rand_loop_eq.
    destruct (0 <? len) eqn:Hpos; [apply Z.ltb_lt in Hpos; lia|done].
  - destruct fuel' as [|fuel'].
    + rewrite rand_loop_eq. destruct (0 <? len) eqn:Hpos; [apply Z.ltb_lt in Hpos; lia|done].
    + rewrite !rand_loop_eq. case_match; [|done]. cbv zeta. case_match; [done|].
      apply Z.ltb_ge in H0.
      by rewrite (IH fuel') by lia.
Qed.

Lemma rand_eq len s :
  rand W len s =
  let n := wrap (SIZE_BITS W) len in
  let r := rand_loop W (Z.to_nat n) n 0 (rand_ready W n s) in
  (fst r, rekey W (snd r)).
Proof. unfold rand. cbv zeta. by case_match. Qed.

Lemma rand_credits_range len c : 0 <= rand_credits W len c < 2 ^ CREDIT_BITS W.
Proof.
  pose proof (CREDIT_BITS_range W) as Hb.
  unfold rand_credits. case_match; [|apply wrap_range; lia].
  split; [done|]. apply Z.pow_pos_nonneg; lia.
Qed.

(** what [rand] leaves of a credit [c]: [len] counts modulo 2^16 *)
Lemma rand_credits_spec len c :
  0 <= c < 2 ^ CREDIT_BITS W ->
  rand_credits W len c = if c / 8 <? wrap 16 len then 0 else c - 8 * wrap 16 len.
Proof.
  intros Hc. pose proof (CREDIT_BITS_range W) as Hb.
  unfold rand_credits. destruct (c / 8 <? wrap 16 len) eqn:E; [done|].
  apply Z.ltb_ge in E. pose proof (wrap_range 16 len ltac:(lia)) as Hr.
  assert (len = 2 ^ 16 * (len / 2 ^ 16) + wrap 16 len) as Hlen
    by (unfold wrap; apply Z.div_mod; lia).
  replace (c - len * 8) with ((c - 8 * wrap 16 len) - 2 ^ 19 * (len / 2 ^ 16))
    by (rewrite Hlen at 3; change (2 ^ 19) with (8 * 2 ^ 16); ring).
  rewrite wrap_drop_multiple by lia.
  apply wrap_small. pose proof (Z.mul_div_le c 8 ltac:(lia)). lia.
Qed.

Lemma rand_credits_ok len c :
  0 <= c <= RNG_MAX_CREDITS -> 0 <= rand_credits W len c <= RNG_MAX_CREDITS.
Proof.
  intros Hc. pose proof credit_field_holds_max as Hmax. unfold RNG_MAX_CREDITS in *.
  rewrite rand_credits_spec by lia.
  pose proof (wrap_range 16 len ltac:(lia)) as Hr.
  destruct (c / 8 <? wrap 16 len) eqn:E; [lia|].
  apply Z.ltb_ge in E. pose proof (Z.mul_div_le c 8 ltac:(lia)). lia.
Qed.

(** the guarded call of [begin] is a call of [begin]: an initialized engine
    passes through it unchanged *)
Lemma rand_ready_eq len s :
  rand_ready W len s =
  let s2 := set_credits (rand_credits W len (credits (begin W None s))) (begin W None s) in
  if trngPending s2
  then set_trngPosn 0 (set_trngPending false (stir W [] 0 s2))
  else mixTRNG W s2.
Proof.
  unfold rand_ready. destruct (initialized s) eqn:E; [|done].
  by rewrite begin_initialized.
Qed.

Lemma initialized_rand_ready len s : initialized (rand_ready W len s) = true.
Proof.
  rewrite rand_ready_eq. cbv zeta. case_match; rng.
  - apply initialized_begin.
  - destruct (quiet_mixTRNG
      (set_credits (rand_credits W len (credits (begin W None s))) (begin W None s)))
      as (_&_&->&_). rng. apply initialized_begin.
Qed.

Lemma credits_rand_ready len s :
  credits (rand_ready W len s)
  = rand_credits W len (if initialized s then credits s else 0).
Proof.
  rewrite rand_ready_eq. cbv zeta. rewrite credits_begin. case_match; rng.
  - rewrite credits_stir_zero; rng; [done|apply rand_credits_range].
  - destruct (quiet_mixTRNG
      (set_credits (rand_credits W len (if initialized s then credits s else 0))
                   (begin W None s)))
      as (->&_). by rng.
Qed.

Lemma prefix_rand_ready len s :
  take 16 (block (rand_ready W len s)) = take 16 (block (begin W None s)).
Proof.
  rewrite rand_ready_eq. cbv zeta. case_match; rng; [done|].
  destruct (quiet_mixTRNG
    (set_credits (rand_credits W len (credits (begin W None s))) (begin W None s)))
    as (_&_&_&_&_&->). by rng.
Qed.

Lemma credits_rand len s :
  credits (snd (rand W len s))
  = rand_credits W (wrap (SIZE_BITS W) len) (if initialized s then credits s else 0).
Proof.
  rewrite rand_eq. cbv zeta. cbn [snd]. rng.
  destruct (rand_loop_frame (Z.to_nat (wrap (SIZE_BITS W) len)) (wrap (SIZE_BITS W) len) 0
                            (rand_ready W (wrap (SIZE_BITS W) len) s)) as (-> & _).
  apply credits_rand_ready.
Qed.

Lemma initialized_rand len s : initialized (snd (rand W len s)) = true.
Proof.
  rewrite rand_eq. cbv zeta. cbn [snd]. rng.
  destruct (rand_loop_frame (Z.to_nat (wrap (SIZE_BITS W) len)) (wrap (SIZE_BITS W) len) 0
                            (rand_ready W (wrap (SIZE_BITS W) len) s)) as (_ & _ & -> & _).
  apply initialized_rand_ready.
Qed.

Lemma prefix_rand len s :
  take 16 (block (snd (rand W len s))) = take 16 (block (begin W None s)).
Proof.
  rewrite rand_eq. cbv zeta. cbn [snd]. rng.
  destruct (rand_loop_frame (Z.to_nat (wrap (SIZE_BITS W) len)) (wrap (SIZE_BITS W) len) 0
                            (rand_ready W (wrap (SIZE_BITS W) len) s)) as (_ & _ & _ & ->).
  apply prefix_rand_ready.
Qed.


Lemma rand_ok len s : credits_ok s -> credits_ok (snd (rand W len s)).
Proof.
  intros Hs. unfold credits_ok. rewrite credits_rand. apply rand_credits_ok.
  case_match; [done|unfold RNG_MAX_CREDITS; lia].
Qed.

(** *** loop *)

Lemma poll_source_ok s src : credits_ok s -> credits_ok (poll_source W s src).
Proof.
  intros Hs. unfold poll_source.
  apply fold_left_invariant; [intros; by apply stir_ok|done].
Qed.

Lemma prefix_poll_source s src :
  take 16 (block (poll_source W s src)) = take 16 (block s).
Proof.
  unfold poll_source.
  apply (fold_left_invariant (fun acc => take 16 (block acc) = take 16 (block s)));
    [intros a x Ha; by rng|by rng].
Qed.

Lemma initialized_poll_source s src :
  initialized (poll_source W s src) = initialized s.
Proof.
  unfold poll_source.
  apply (fold_left_invariant (fun acc => initialized acc = initialized s));
    [intros a x Ha; by rng|by rng].
Qed.

Lemma quiet_xor_at_posn value s :
  credits (xor_at_posn value s) = credits s /\
  initialized (xor_at_posn value s) = initialized s /\
  take 16 (block (xor_at_posn value s)) = take 16 (block s).
Proof. unfold xor_at_posn. rng. by rewrite prefix_xor32 by lia. Qed.

Lemma loop_trng_word_frame s :
  initialized (loop_trng_word W s) = initialized s /\
  take 16 (block (loop_trng_word W s)) = take 16 (block s).
Proof.
  unfold loop_trng_word. cbv zeta.
  destruct (quiet_xor_at_posn (trng_word W (now s)) s) as (_ & Hi & Hp).
  repeat case_match; by rng.
Qed.

Lemma loop_trng_word_ok s : credits_ok s -> credits_ok (loop_trng_word W s).
Proof.
  intros [Hlo Hhi]. pose proof credit_field_holds_max as Hmax.
  unfold credits_ok, loop_trng_word, RNG_MAX_CREDITS in *. cbv zeta.
  destruct (quiet_xor_at_posn (trng_word W (now s)) s) as (Hc & _).
  rng. set (s2 := if 12 <=? trngPosn _ then _ else _).
  assert (credits s2 = credits s) as Hc2 by (subst s2; case_match; by rng).
  destruct (credits s2 <? 384) eqn:E; rng; [|lia].
  apply Z.ltb_lt in E. rewrite wrap_small by lia. lia.
Qed.

Lemma loop_watchdog_frame s :
  initialized (loop_watchdog W s) = initialized s /\
  take 16 (block (loop_watchdog W s)) = take 16 (block s).
Proof.
  unfold loop_watchdog, wdt_take. case_match; [|done]. cbv zeta.
  set (s3 := if RNG_MAX_CREDITS <? _ then _ else _).
  assert (initialized s3 = initialized s /\ take 16 (block s3) = take 16 (block s)) as [Hi Hp].
  { subst s3. case_match; by rng. }
  destruct (quiet_xor_at_posn (jenkins_final (wrap 32 (hash s))) s3) as (_ & Hi' & Hp').
  case_match; rng; by rewrite ?Hi', ?Hp'.
Qed.

Lemma loop_watchdog_ok s : credits_ok s -> credits_ok (loop_watchdog W s).
Proof.
  intros [Hlo Hhi]. pose proof credit_field_holds_max as Hmax.
  unfold loop_watchdog, wdt_take. case_match; [|done]. cbv zeta.
  set (s3 := if RNG_MAX_CREDITS <? _ then _ else _).
  assert (credits_ok s3) as Hs3.
  { subst s3. unfold credits_ok, RNG_MAX_CREDITS in *. rng.
    rewrite wrap_small by lia. destruct (384 <? credits s + 4) eqn:E; rng; [lia|].
    apply Z.ltb_ge in E. lia. }
  destruct (quiet_xor_at_posn (jenkins_final (wrap 32 (hash s))) s3) as (Hc' & _).
  case_match.
  - apply stir_ok. unfold credits_ok in *. rng. by rewrite Hc'.
  - unfold credits_ok in *. rng. by rewrite Hc'.
Qed.

Lemma loop_eq s :
  loop W s =
  let s2 := loop_hw W (fold_left (poll_source W) (noiseSources s) s) in
  if timeout (tick s2) <=? wrap 32 (millis W (now s2) - timer (tick s2))
  then save W (tick s2)
  else tick s2.
Proof. reflexivity. Qed.

Lemma loop_hw_frame s :
  initialized (loop_hw W s) = initialized s /\
  take 16 (block (loop_hw W s)) = take 16 (block s).
Proof.
  unfold loop_hw. destruct (board W); try done.
  - apply loop_watchdog_frame.
  - case_match; [|by rng]. destruct (loop_trng_word_frame (tick s)) as [-> ->]. by rng.
  - apply loop_trng_word_frame.
  - apply loop_trng_word_frame.
Qed.

Lemma loop_hw_ok s : credits_ok s -> credits_ok (loop_hw W s).
Proof.
  intros Hs. unfold loop_hw. destruct (board W); try done.
  - by apply loop_watchdog_ok.
  - case_match; [by apply loop_trng_word_ok|done].
  - by apply loop_trng_word_ok.
  - by apply loop_trng_word_ok.
Qed.

Lemma loop_ok s : credits_ok s -> credits_ok (loop W s).
Proof.
  intros Hs. rewrite loop_eq. cbv zeta.
  assert (credits_ok (loop_hw W (fold_left (poll_source W) (noiseSources s) s))) as Hok.
  { apply loop_hw_ok. apply fold_left_invariant; [intros; by apply poll_source_ok|done]. }
  unfold credits_ok in *. case_match; by rng.
Qed.

Lemma prefix_loop s : take 16 (block (loop W s)) = take 16 (block s).
Proof.
  rewrite loop_eq. cbv zeta.
  assert (take 16 (block (loop_hw W (fold_left (poll_source W) (noiseSources s) s)))
          = take 16 (block s)) as Hp.
  { destruct (loop_hw_frame (fold_left (poll_source W) (noiseSources s) s)) as [_ ->].
    apply (fold_left_invariant (fun acc => take 16 (block acc) = take 16 (block s)));
      [|done]. intros a x Ha. by rewrite prefix_poll_source. }
  case_match; by rng.
Qed.

Lemma initialized_loop s : initialized (loop W s) = initialized s.
Proof.
  rewrite loop_eq. cbv zeta.
  assert (initialized (loop_hw W (fold_left (poll_source W) (noiseSources s) s))
          = initialized s) as Hp.
  { destruct (loop_hw_frame (fold_left (poll_source W) (noiseSources s) s)) as [-> _].
    apply (fold_left_invariant (fun acc => initialized acc = initialized s));
      [|done]. intros a x Ha. by rewrite initialized_poll_source. }
  case_match; by rng.
Qed.

(** *** the other calls, and sequences of calls *)

Lemma credits_destroy s : credits (destroy W s) = credits s.
Proof. unfold destroy. destruct (board W); repeat case_match; by rng. Qed.

Lemma block_destroy s : block (destroy W s) = replicate 64 0.
Proof. unfold destroy. destruct (board W); repeat case_match; by rng. Qed.

Lemma initialized_destroy s : initialized (destroy W s) = false.
Proof. unfold destroy. by rng. Qed.

Lemma run_call_ok s c : credits_ok s -> credits_ok (run_call W s c).
Proof.
  intros Hs. destruct c; cbn [run_call].
  - by apply begin_ok.
  - unfold addNoiseSource. by case_match.
  - done.
  - by apply rand_ok.
  - by apply stir_ok.
  - unfold credits_ok. by rng.
  - by apply loop_ok.
  - unfold credits_ok. by rewrite credits_destroy.
Qed.

(** ** Traces *)

Lemma replicate_cons_end (n : nat) (e : event) (tr : list event) :
  replicate n e ++ e :: tr = e :: replicate n e ++ tr.
Proof. induction n as [|n IH]; simpl; [done|]. by rewrite IH. Qed.

Lemma rekeys_app a b : rekeys (a ++ b) = (rekeys a + rekeys b)%nat.
Proof. induction a as [|[] a IH]; simpl; lia. Qed.

Lemma rekeys_replicate n : rekeys (replicate n EvRekey) = n.
Proof. induction n as [|n IH]; simpl; lia. Qed.

Lemma blocks_app a b : blocks (a ++ b) = (blocks a + blocks b)%nat.
Proof. induction a as [|[] a IH]; simpl; lia. Qed.

Lemma pending_blocks_app a b :
  pending_blocks b = 0%nat -> pending_blocks (a ++ b) = pending_blocks a.
Proof. intros Hb. induction a as [|[] a IH]; simpl; lia. Qed.

Lemma runs_le_app n a b :
  runs_le n a = true -> runs_le n b = true -> pending_blocks b = 0%nat ->
  runs_le n (a ++ b) = true.
Proof.
  intros Ha Hb H0. induction a as [|e a IH]; [done|].
  change ((e :: a) ++ b) with (e :: (a ++ b)).
  cbn [runs_le] in *. apply andb_true_iff in Ha as [Ha1 Ha2].
  apply andb_true_iff. split; [|by apply IH].
  change (e :: a ++ b) with ((e :: a) ++ b). by rewrite pending_blocks_app.
Qed.

Lemma settled_nil : settled [].
Proof. by repeat split. Qed.

Lemma settled_app a b : settled a -> settled b -> settled (a ++ b).
Proof.
  intros (Ha1 & Ha2 & Ha3) (Hb1 & Hb2 & Hb3). repeat split.
  - by rewrite pending_blocks_app.
  - by apply runs_le_app.
  - rewrite blocks_app. lia.
Qed.

Lemma settled_rekey : settled [EvRekey].
Proof. by repeat split. Qed.

Lemma settled_replicate n : settled (replicate n EvRekey).
Proof.
  induction n as [|n IH]; [apply settled_nil|].
  apply (settled_app [EvRekey]); [apply settled_rekey|done].
Qed.

Lemma settled_save : settled [EvRekey; EvSave].
Proof. by repeat split. Qed.

Lemma settled_begin tag : settled [EvBegin tag].
Proof. by repeat split. Qed.

Lemma settled_runs_le n seg : (1 <= n)%nat -> settled seg -> runs_le n seg = true.
Proof.
  intros Hn (_ & H & _). induction seg as [|e seg IH]; [done|].
  cbn [runs_le] in *. apply andb_true_iff in H as [H1 H2].
  apply andb_true_iff. split; [|by apply IH].
  apply Nat.leb_le. apply Nat.leb_le in H1. lia.
Qed.

(** *** the chunks of [stir] *)

Lemma chunks48_nil : chunks48 [] = [].
Proof. reflexivity. Qed.

Lemma chunks48_cons (data : list Z) :
  data <> [] -> chunks48 data = take 48 data :: chunks48 (drop 48 data).
Proof.
  intros Hne. unfold chunks48.
  assert (0 < length data)%nat as Hlen by (destruct data; [done|simpl; lia]).
  assert ((length data + 47) / 48 = S ((length (drop 48 data) + 47) / 48))%nat as ->.
  { rewrite length_drop.
    destruct (Nat.le_gt_cases (length data) 48) as [Hle|Hgt].
    - replace (length data - 48)%nat with 0%nat by lia.
      change ((0 + 47) / 48)%nat with 0%nat.
      replace (length data + 47)%nat with ((length data - 1) + 1 * 48)%nat by lia.
      rewrite Nat.div_add by lia. rewrite Nat.div_small by lia. lia.
    - replace (length data + 47)%nat with ((length data - 48 + 47) + 1 * 48)%nat by lia.
      rewrite Nat.div_add by lia. lia. }
  rewrite <- cons_seq, <- fmap_S_seq. cbn [map]. rewrite Nat.mul_0_r, drop_0. f_equal.
  rewrite <- list_fmap_compose. apply map_ext. intros k. cbn.
  rewrite drop_drop. do 2 f_equal. lia.
Qed.

Lemma length_chunks48 (data : list Z) : length (chunks48 data) = ((length data + 47) / 48)%nat.
Proof. unfold chunks48. by rewrite length_map, length_seq. Qed.

(** the chunks are the input, in order *)
Lemma concat_chunks48 (data : list Z) : concat (chunks48 data) = data.
Proof.
  remember (length data) as n eqn:Hn. revert data Hn.
  induction n as [n IH] using lt_wf_ind. intros data Hn.
  destruct data as [|d data]; [done|].
  rewrite chunks48_cons by done. cbn [concat].
  rewrite (IH (length (drop 48 (d :: data)))); [apply take_drop| |done].
  rewrite length_drop. subst n. simpl. lia.
Qed.

(** every chunk has between 1 and 48 bytes *)
Lemma chunks48_sizes (data : list Z) :
  Forall (fun c => (1 <= length c <= 48)%nat) (chunks48 data).
Proof.
  remember (length data) as n eqn:Hn. revert data Hn.
  induction n as [n IH] using lt_wf_ind. intros data Hn.
  destruct data as [|d data]; [by constructor|].
  rewrite chunks48_cons by done. constructor.
  - rewrite length_take. cbn [length]. lia.
  - apply (IH (length (drop 48 (d :: data)))); [|done].
    rewrite length_drop. subst n. simpl. lia.
Qed.

(** the loop of [stir] is the fold over the chunks, given the turns it
    needs *)
Lemma stir_chunks_spec fuel data s :
  (length data <= fuel)%nat ->
  stir_chunks W fuel data s
  = fold_left (fun acc chunk => rekey W (xor_chunk chunk acc)) (chunks48 data) s.
Proof.
  revert data s. induction fuel as [|fuel IH]; intros data s Hfuel.
  - destruct data; [done|simpl in Hfuel; lia].
  - destruct data as [|d data]; [done|].
    rewrite chunks48_cons by done. cbn [stir_chunks fold_left].
    assert (take (48 `min` length (d :: data)) (d :: data) = take 48 (d :: data)) as ->.
    { destruct (Nat.le_gt_cases 48 (length (d :: data))) as [Hle|Hgt].
      - by rewrite Nat.min_l.
      - rewrite Nat.min_r by lia. by rewrite !take_ge by lia. }
    assert (drop (48 `min` length (d :: data)) (d :: data) = drop 48 (d :: data)) as ->.
    { destruct (Nat.le_gt_cases 48 (length (d :: data))) as [Hle|Hgt].
      - by rewrite Nat.min_l.
      - rewrite Nat.min_r by lia. by rewrite !drop_ge by lia. }
    apply IH. rewrite length_drop. simpl in *. lia.
Qed.

Lemma stir_mix_is_spec data s : stir_mix W data s = stir_mix_spec W data s.
Proof.
  unfold stir_mix, stir_mix_spec. destruct data as [|d data]; [done|].
  change (0 <? Z.of_nat (length (d :: data))) with true. cbv iota.
  by apply stir_chunks_spec.
Qed.

Lemma trace_fold_chunks cs s :
  trace (fold_left (fun acc chunk => rekey W (xor_chunk chunk acc)) cs s)
  = replicate (length cs) EvRekey ++ trace s.
Proof.
  revert s. induction cs as [|c cs IH]; intros s; [done|].
  cbn [fold_left length replicate]. rewrite IH. unfold xor_chunk. rng.
  apply replicate_cons_end.
Qed.

Lemma trace_stir_mix data s :
  trace (stir_mix W data s) = replicate (mix_rekeys (length data)) EvRekey ++ trace s.
Proof.
  rewrite stir_mix_is_spec. unfold stir_mix_spec, mix_rekeys.
  destruct data as [|d data]; [done|].
  rewrite trace_fold_chunks, length_chunks48. done.
Qed.

Lemma trace_stir_first_save s :
  trace (stir_first_save W s)
  = (if firstSave s && (RNG_MAX_CREDITS <=? credits s) then [EvRekey; EvSave] else [])
    ++ trace s.
Proof. unfold stir_first_save. case_match; by rng. Qed.

Lemma trace_stir data credit s :
  trace (stir W data credit s)
  = (if firstSave s &&
        (RNG_MAX_CREDITS <=? credits (stir_grant W (stir_credit W (Z.of_nat (length data)) credit) s))
     then [EvRekey; EvSave] else [])
    ++ replicate (mix_rekeys (length data)) EvRekey ++ trace s.
Proof.
  unfold stir. rewrite trace_stir_first_save, trace_stir_mix. by rng.
Qed.

Lemma stir_settled data credit s :
  exists seg, trace (stir W data credit s) = seg ++ trace s /\ settled seg.
Proof.
  rewrite trace_stir. eexists. rewrite app_assoc. split; [done|].
  apply settled_app; [case_match; [apply settled_save|apply settled_nil]|].
  apply settled_replicate.
Qed.

(** what [begin] records when it runs: itself first, then rekeys and the
    seed block of its save *)
Lemma begin_trace tag s :
  initialized s = false ->
  exists seg, trace (begin W tag s) = seg ++ EvBegin tag :: trace s /\ settled seg.
Proof.
  intros Hinit. rewrite begin_eq, Hinit. cbv zeta. rng.
  destruct (quiet_begin_loaded tag s) as (_&_&_&_&Ht&_). rewrite trace_set_block, trace_emit in Ht.
  set (s3 := rekey W _).
  assert (trace s3 = [EvRekey] ++ EvBegin tag :: trace s) as H3 by (subst s3; rng; by rewrite Ht).
  assert (exists seg, trace (match tag with Some t => stir W t 0 s3 | None => s3 end)
                      = seg ++ EvBegin tag :: trace s /\ settled seg) as (seg4 & H4 & Hs4).
  { destruct tag as [t|].
    - destruct (stir_settled t 0 s3) as (seg & -> & Hseg). rewrite H3, app_assoc.
      eexists; split; [done|]. apply settled_app; [done|apply settled_rekey].
    - rewrite H3. eexists; split; [done|apply settled_rekey]. }
  destruct (stir_settled (unique_id W) 0
              (match tag with Some t => stir W t 0 s3 | None => s3 end)) as (seg5 & -> & Hs5).
  rewrite H4. exists ([EvRekey; EvSave] ++ seg5 ++ seg4). split.
  - by rewrite <- !app_assoc.
  - apply settled_app; [apply settled_save|]. by apply settled_app.
Qed.

Lemma begin_settled tag s :
  exists seg, trace (begin W tag s) = seg ++ trace s /\ settled seg.
Proof.
  destruct (initialized s) eqn:Hinit.
  - rewrite begin_initialized by done. exists []. split; [done|apply settled_nil].
  - destruct (begin_trace tag s Hinit) as (seg & -> & Hseg).
    exists (seg ++ [EvBegin tag]). split; [by rewrite <- app_assoc|].
    apply settled_app; [done|apply settled_begin].
Qed.

(** *** the trace of [rand] *)

Lemma rand_ready_settled len s :
  exists seg, trace (rand_ready W len s) = seg ++ trace s /\ settled seg.
Proof.
  rewrite rand_ready_eq. cbv zeta.
  destruct (begin_settled None s) as (seg0 & H0 & Hs0).
  case_match; rng.
  - destruct (stir_settled [] 0
       (set_credits (rand_credits W len (credits (begin W None s))) (begin W None s)))
      as (seg1 & -> & Hs1).
    rng. rewrite H0, app_assoc. eexists; split; [done|by apply settled_app].
  - destruct (quiet_mixTRNG
       (set_credits (rand_credits W len (credits (begin W None s))) (begin W None s)))
      as (_&_&_&_&->&_). rng. by exists seg0.
Qed.

(** the loop of [rand] keeps at most 16 blocks pending, if it starts with
    at most [count] *)
Lemma rand_loop_trace fuel len count s :
  0 <= count <= RNG_REKEY_BLOCKS ->
  exists seg, trace (snd (rand_loop W fuel len count s)) = seg ++ trace s /\
    forall pre, (pending_blocks pre <= Z.to_nat count)%nat -> runs_le 16 pre = true ->
                runs_le 16 (seg ++ pre) = true.
Proof.
  unfold RNG_REKEY_BLOCKS.
  revert len count s. induction fuel as [|fuel IH]; intros len count s Hcount.
  { by exists []. }
  rewrite rand_loop_eq. case_match; [|by exists []]. cbv zeta. unfold RNG_REKEY_BLOCKS.
  set (again := 16 <=? count).
  set (step := if again then [EvBlock; EvRekey] else [EvBlock]).
  assert (trace (next_block W (if again then rekey W s else s)) = step ++ trace s) as Hstep.
  { rewrite trace_next_block. subst step. destruct again; by rng. }
  assert (forall pre, (pending_blocks pre <= Z.to_nat count)%nat -> runs_le 16 pre = true ->
            runs_le 16 (step ++ pre) = true /\
            (pending_blocks (step ++ pre) <= Z.to_nat (if again then 1 else count + 1))%nat)
    as Hrun.
  { intros pre Hpre Hok. subst step again. destruct (16 <=? count) eqn:E.
    - split.
      + cbn [app runs_le pending_blocks]. rewrite Hok. reflexivity.
      + cbn [app pending_blocks]. lia.
    - apply Z.leb_gt in E. split.
      + cbn [app runs_le]. rewrite Hok, andb_true_r.
        apply Nat.leb_le. cbn [pending_blocks]. lia.
      + cbn [app pending_blocks]. lia. }
  destruct (len <? 64) eqn:Hlast; cbn [snd].
  - exists step. split; [exact Hstep|]. intros pre Hpre Hok. by apply Hrun.
  - destruct (IH (len - 64) (if again then 1 else count + 1)
                 (next_block W (if again then rekey W s else s))) as (seg & -> & Hseg).
    { subst again. destruct (16 <=? count) eqn:E; [lia|]. apply Z.leb_gt in E. lia. }
    rewrite Hstep. exists (seg ++ step). split; [by rewrite app_assoc|].
    intros pre Hpre Hok. rewrite <- app_assoc.
    destruct (Hrun pre Hpre Hok) as [H1 H2]. by apply Hseg.
Qed.

(** on an engine that is not initialized, the first thing a request records
    is the [begin] with no tag *)
Lemma rand_begins_first len s :
  initialized s = false ->
  exists seg, trace (snd (rand W len s)) = seg ++ EvBegin None :: trace s.
Proof.
  intros Hinit. rewrite rand_eq. cbv zeta. cbn [snd]. rng.
  set (n := wrap (SIZE_BITS W) len).
  destruct (rand_loop_trace (Z.to_nat n) n 0 (rand_ready W n s) ltac:(done))
    as (seg1 & -> & _).
  destruct (begin_trace None s Hinit) as (seg0 & H0 & _).
  rewrite rand_ready_eq. cbv zeta. case_match; rng.
  - destruct (stir_settled [] 0
       (set_credits (rand_credits W n (credits (begin W None s))) (begin W None s)))
      as (seg2 & -> & _).
    rng. rewrite H0. exists (EvRekey :: seg1 ++ seg2 ++ seg0).
    by rewrite <- app_comm_cons, <- !app_assoc.
  - destruct (quiet_mixTRNG
       (set_credits (rand_credits W n (credits (begin W None s))) (begin W None s)))
      as (_&_&_&_&->&_). rng. rewrite H0. exists (EvRekey :: seg1 ++ seg0).
    by rewrite <- app_comm_cons, <- !app_assoc.
Qed.

(** the number of keystream blocks of a request *)
Lemma rand_loop_blocks fuel len count s :
  0 <= len <= Z.of_nat fuel ->
  blocks (trace (snd (rand_loop W fuel len count s)))
  = (Z.to_nat ((len + 63) / 64) + blocks (trace s))%nat.
Proof.
  revert len count s. induction fuel as [|fuel IH]; intros len count s Hfuel.
  - assert (len = 0) as -> by lia. done.
  - rewrite rand_loop_eq. destruct (0 <? len) eqn:Hpos.
    + apply Z.ltb_lt in Hpos. cbv zeta.
      assert (blocks (trace (next_block W (if RNG_REKEY_BLOCKS <=? count then rekey W s else s)))
              = S (blocks (trace s))) as Hb.
      { rewrite trace_next_block. case_match; by rng. }
      destruct (len <? 64) eqn:Hlast; cbn [snd].
      * apply Z.ltb_lt in Hlast. rewrite Hb.
        replace ((len + 63) / 64) with 1; [done|].
        apply Z.div_unique with (r := len - 1); lia.
      * apply Z.ltb_ge in Hlast. rewrite IH by lia. rewrite Hb.
        replace (len + 63) with ((len - 64 + 63) + 1 * 64) by lia.
        rewrite Z.div_add by lia.
        assert (0 <= (len - 64 + 63) / 64) by (apply Z.div_pos; lia). lia.
    + apply Z.ltb_ge in Hpos. assert (len = 0) as -> by lia. done.
Qed.

(** *** the bytes [stir] touches *)

Lemma xor_bytes_lookup_out off chunk (b : list Z) (i : nat) :
  (i < off \/ off + length chunk <= i)%nat -> xor_bytes off chunk b !! i = b !! i.
Proof.
  revert off b. induction chunk as [|d chunk IH]; intros off b Hi; [done|].
  cbn [xor_bytes length] in *. rewrite IH by lia.
  apply list_lookup_alter_ne. lia.
Qed.

Lemma xor_bytes_lookup_in off chunk (b : list Z) (j : nat) (d : Z) :
  chunk !! j = Some d ->
  xor_bytes off chunk b !! (off + j)%nat
  = (fun x => wrap 8 (Z.lxor x d)) <$> b !! (off + j)%nat.
Proof.
  revert off b j. induction chunk as [|d0 chunk IH]; intros off b j Hj; [done|].
  cbn [xor_bytes]. destruct j as [|j].
  - simplify_eq/=. rewrite Nat.add_0_r.
    rewrite xor_bytes_lookup_out by lia. apply list_lookup_alter_eq.
  - cbn in Hj. replace (off + S j)%nat with (S off + j)%nat by lia.
    rewrite (IH (S off) _ j Hj). f_equal. apply list_lookup_alter_ne. lia.
Qed.

Lemma tagged_length (b : list Z) : take 16 b = tagRNG -> (16 <= length b)%nat.
Proof.
  intros H. apply (f_equal length) in H. rewrite length_take in H.
  change (length tagRNG) with 16%nat in H. lia.
Qed.

(** * The claims *)

(** C1 (amended).  When at least one byte is supplied, a credit above
    [len * 8] is clamped: [stir(data, len, credit)] leaves the engine in
    exactly the state [stir(data, len, len * 8)] leaves it in.  When no
    byte is supplied the credit is not clamped: it is granted in full, up
    to RNG_MAX_CREDITS. *)
Theorem stir_credit_clamp (s : RNGClass) (data : list Z) (credit : Z) :
  0 <= credit < 2 ^ UINT_BITS W ->
  8 * Z.of_nat (length data) < credit ->
  (data <> [] -> stir W data credit s = stir W data (8 * Z.of_nat (length data)) s) /\
  (data = [] -> credits_ok s ->
   credits (stir W data credit s) = Z.min RNG_MAX_CREDITS (credits s + credit)).
Proof.
  intros Hcredit Habove. split.
  - intros Hdata. unfold stir. do 3 f_equal.
    assert (0 < Z.of_nat (length data)) as Hlen by (destruct data; [done|simpl; lia]).
    set (len := Z.of_nat (length data)) in *.
    assert (len <= credit / 8) as Hdiv by (apply Z.div_le_lower_bound; lia).
    unfold stir_credit.
    rewrite (wrap_small (UINT_BITS W) credit) by done.
    rewrite (wrap_small (UINT_BITS W) (8 * len)) by lia.
    replace (8 * len / 8) with len by (rewrite Z.mul_comm, Z.div_mul; lia).
    assert ((len <=? credit / 8) = true) as -> by by apply Z.leb_le.
    assert ((len <=? len) = true) as -> by (apply Z.leb_le; lia).
    assert ((len =? 0) = false) as -> by (apply Z.eqb_neq; lia).
    done.
  - intros -> Hok. rewrite credits_stir_saturates by done.
    change (Z.of_nat (length (@nil Z))) with 0. do 2 f_equal.
    unfold stir_credit. rewrite (wrap_small (UINT_BITS W) credit) by done.
    by rewrite andb_false_r.
Qed.

(** C2.  From the constructed engine, after every sequence of calls (and so
    after every prefix of it) the entropy-credit counter is within
    [0, RNG_MAX_CREDITS]. *)
Theorem credits_stay_in_pool (ee fl : list Z) (nv : option (list Z)) (h o : Z)
    (calls : list call) (n : nat) :
  0 <= credits (run W (take n calls) (RNGClass_new ee fl nv h o)) <= RNG_MAX_CREDITS.
Proof.
  unfold run. apply (fold_left_invariant credits_ok).
  - intros a c Ha. by apply run_call_ok.
  - unfold credits_ok, RNG_MAX_CREDITS. simpl. lia.
Qed.


(** C4.  Within one [rand(buf, len)] call there are never more than 16
    blocks generated since the last rekey, and the last thing the call does
    is a rekey, whatever [len] is. *)
Theorem rand_rekey_discipline (s : RNGClass) (len : Z) :
  exists seg,
    trace (snd (rand W len s)) = seg ++ trace s /\
    head seg = Some EvRekey /\
    runs_le (Z.to_nat RNG_REKEY_BLOCKS) seg = true /\
    blocks seg = Z.to_nat ((wrap (SIZE_BITS W) len + 63) / 64).
Proof.
  pose proof (SIZE_BITS_ge W) as Hsize.
  pose proof (wrap_range (SIZE_BITS W) len ltac:(lia)) as Hn.
  rewrite rand_eq. cbv zeta. cbn [snd]. rng.
  set (n := wrap (SIZE_BITS W) len) in *.
  destruct (rand_ready_settled n s) as (seg0 & H0 & Hs0).
  destruct (rand_loop_trace (Z.to_nat n) n 0 (rand_ready W n s) ltac:(done))
    as (seg1 & H1 & Hrun).
  pose proof (rand_loop_blocks (Z.to_nat n) n 0 (rand_ready W n s) ltac:(lia)) as Hb.
  rewrite H1, H0 in Hb. rewrite H1, H0.
  exists (EvRekey :: seg1 ++ seg0). split; [by rewrite <- app_comm_cons, <- app_assoc|].
  split; [done|]. split.
  - change (Z.to_nat RNG_REKEY_BLOCKS) with 16%nat.
    cbn [runs_le pending_blocks Nat.leb andb]. apply Hrun; [destruct Hs0 as [-> _]; lia|].
    apply settled_runs_le; [lia|done].
  - rewrite !blocks_app in Hb. cbn [blocks]. rewrite blocks_app.
    destruct Hs0 as (_ & _ & Hs0). lia.
Qed.

(** C5 (amended).  The data-processing part of [stir(data, len, credit)] is
    one rekey and nothing else when [len = 0]; otherwise it takes the input
    in order in chunks of at most 48 bytes, XORs each chunk byte by byte
    onto the offsets 16.. of the block and rekeys once before the next
    chunk: ceil(len / 48) rekeys.  When the call brings the credit to
    RNG_MAX_CREDITS while [firstSave] is set, a [save] follows, which
    generates a seed block and rekeys once more. *)
Theorem stir_mixes_in_chunks (s : RNGClass) (data : list Z) (credit : Z) :
  let granted := stir_grant W (stir_credit W (Z.of_nat (length data)) credit) s in
  let mixed := stir_mix_spec W data granted in
  let saves := firstSave s && (RNG_MAX_CREDITS <=? credits granted) in
  (* the call, phase by phase *)
  stir W data credit s = (if saves then save W (set_firstSave false mixed) else mixed) /\
  (* the chunks *)
  (data = [] -> mixed = rekey W granted) /\
  concat (chunks48 data) = data /\
  Forall (fun c => (1 <= length c <= 48)%nat) (chunks48 data) /\
  length (chunks48 data) = ((length data + 47) / 48)%nat /\
  (forall chunk acc (j : nat) d, chunk !! j = Some d ->
     block (xor_chunk chunk acc) !! (16 + j)%nat
     = (fun x => wrap 8 (Z.lxor x d)) <$> block acc !! (16 + j)%nat) /\
  (forall chunk acc (i : nat), (i < 16 \/ 16 + length chunk <= i)%nat ->
     block (xor_chunk chunk acc) !! i = block acc !! i) /\
  (* the rekeys *)
  trace mixed = replicate (mix_rekeys (length data)) EvRekey ++ trace s /\
  rekeys (trace (stir W data credit s))
  = (rekeys (trace s) + mix_rekeys (length data) + (if saves then 1 else 0))%nat.
Proof.
  cbv zeta. repeat split.
  - unfold stir, stir_first_save. rewrite stir_mix_is_spec.
    rewrite <- stir_mix_is_spec at 1 2. by rng.
  - by intros ->.
  - apply concat_chunks48.
  - apply chunks48_sizes.
  - apply length_chunks48.
  - intros chunk acc j d Hj. unfold xor_chunk. rng. by apply xor_bytes_lookup_in.
  - intros chunk acc i Hi. unfold xor_chunk. rng. by apply xor_bytes_lookup_out.
  - rewrite <- stir_mix_is_spec, trace_stir_mix. by rng.
  - rewrite trace_stir, !rekeys_app, rekeys_replicate. case_match; simpl; lia.
Qed.

(** C6 (amended).  On an engine that is not initialized, [rand] first
    invokes [begin] with no tag and then does its work: the call is the
    call on the engine [begin(0)] leaves, the first thing it records is
    that [begin], and the engine is initialized after it.  [stir] does not
    invoke [begin]: it does its work on the engine as it is (it records its
    rekeys and, when it saves, the seed block, and nothing else), leaves
    the engine not initialized, and leaves the first 16 bytes of the block
    as they were. *)
Theorem uninitialized_use (s : RNGClass) (len : Z) (data : list Z) (credit : Z) :
  initialized s = false ->
  rand W len s = rand W len (begin W None s) /\
  (exists seg, trace (snd (rand W len s)) = seg ++ EvBegin None :: trace s) /\
  initialized (begin W None s) = true /\
  initialized (snd (rand W len s)) = true /\
  initialized (stir W data credit s) = false /\
  (exists saved, trace (stir W data credit s)
                 = (if saved : bool then [EvRekey; EvSave] else [])
                   ++ replicate (mix_rekeys (length data)) EvRekey ++ trace s) /\
  take 16 (block (stir W data credit s)) = take 16 (block s).
Proof.
  intros Hinit. repeat split.
  - rewrite !rand_eq. cbv zeta. rewrite !rand_ready_eq.
    by rewrite (begin_initialized None (begin W None s)) by apply initialized_begin.
  - by apply rand_begins_first.
  - apply initialized_begin.
  - apply initialized_rand.
  - by rewrite initialized_stir.
  - eexists. apply trace_stir.
  - apply prefix_stir.
Qed.

(** C7.  [available(len)] only reads the engine.  For [len] of 48 bytes or
    more (384 bits or more) it tells whether the credit is at
    RNG_MAX_CREDITS; below that it tells whether [len * 8 <= credits],
    which is [len <= credits / 8]. *)
Theorem available_spec (s : RNGClass) (len : Z) :
  0 <= len < 2 ^ SIZE_BITS W ->
  available W len s
  = (if 48 <=? len then RNG_MAX_CREDITS <=? credits s else len * 8 <=? credits s) /\
  ((48 <=? len) = (RNG_MAX_CREDITS <=? len * 8)) /\
  ((len * 8 <=? credits s) = (len <=? credits s / 8)).
Proof.
  intros Hlen. unfold available, RNG_MAX_CREDITS.
  rewrite (wrap_small (SIZE_BITS W) len) by done.
  change (384 / 8) with 48.
  assert ((len * 8 <=? credits s) = (len <=? credits s / 8)) as Heq.
  { pose proof (Z.mul_div_le (credits s) 8 ltac:(lia)).
    pose proof (Z.mul_succ_div_gt (credits s) 8 ltac:(lia)).
    destruct (len * 8 <=? credits s) eqn:E1; destruct (len <=? credits s / 8) eqn:E2;
      try apply Z.leb_le in E1; try apply Z.leb_gt in E1;
      try apply Z.leb_le in E2; try apply Z.leb_gt in E2; lia. }
  repeat split; [|  |done].
  - destruct (48 <=? len) eqn:E; [done|]. apply Z.leb_gt in E.
    rewrite (wrap_small 16 len) by lia. by rewrite Heq.
  - destruct (48 <=? len) eqn:E1; destruct (384 <=? len * 8) eqn:E2;
      try apply Z.leb_le in E1; try apply Z.leb_gt in E1;
      try apply Z.leb_le in E2; try apply Z.leb_gt in E2; lia.
Qed.

(** every call but [destroy] keeps the tag where it is *)
Lemma run_call_tagged (s : RNGClass) (c : call) :
  c <> CDestroy -> take 16 (block s) = tagRNG -> take 16 (block (run_call W s c)) = tagRNG.
Proof.
  intros Hc Htag. pose proof (tagged_length _ Htag) as Hlen.
  assert (forall tag, take 16 (block (begin W tag s)) = tagRNG) as Hbegin.
  { intros tag. rewrite prefix_begin. case_match; [done|by apply prefix_tag_written]. }
  destruct c; cbn [run_call].
  - apply Hbegin.
  - unfold addNoiseSource. case_match; by rng.
  - unfold setAutoSaveTime. by rng.
  - by rewrite prefix_rand.
  - by rng.
  - by rng.
  - by rewrite prefix_loop.
  - done.
Qed.

(** C9.  Once the first 16 bytes of the block hold the tag constant, [stir],
    [rand], [save], [loop], the internal [rekey] and [mixTRNG], and every
    sequence of calls without [destroy], leave them as they are ([begin]
    writes the same constant); [destroy] zeroes them. *)
Theorem tag_prefix_kept (s : RNGClass) :
  take 16 (block s) = tagRNG ->
  (forall data credit, take 16 (block (stir W data credit s)) = tagRNG) /\
  (forall len, take 16 (block (snd (rand W len s))) = tagRNG) /\
  take 16 (block (save W s)) = tagRNG /\
  take 16 (block (loop W s)) = tagRNG /\
  take 16 (block (rekey W s)) = tagRNG /\
  take 16 (block (mixTRNG W s)) = tagRNG /\
  (forall tag, take 16 (block (begin W tag s)) = tagRNG) /\
  (forall calls, Forall (fun c => c <> CDestroy) calls ->
                 take 16 (block (run W calls s)) = tagRNG) /\
  take 16 (block (destroy W s)) = replicate 16 0 /\
  replicate 16 0 <> tagRNG.
Proof.
  intros Htag. repeat split.
  - intros data credit. by apply (run_call_tagged s (CStir data credit)).
  - intros len. by apply (run_call_tagged s (CRand len)).
  - by apply (run_call_tagged s CSave).
  - by apply (run_call_tagged s CLoop).
  - by rng.
  - by destruct (quiet_mixTRNG s) as (_&_&_&_&_&->).
  - intros tag. by apply (run_call_tagged s (CBegin tag)).
  - intros calls Hcalls. unfold run. revert s Htag.
    induction Hcalls as [|c calls Hc _ IH]; intros s Htag; [done|].
    cbn [fold_left]. apply IH. by apply run_call_tagged.
  - by rewrite block_destroy.
  - discriminate.
Qed.

(** C10.  [setAutoSaveTime(0)] sets the interval to one minute (60000 ms);
    [setAutoSaveTime(minutes)] with [minutes >= 1] sets it to
    [minutes * 60000] ms; the interval set is never zero. *)
Theorem setAutoSaveTime_interval (s : RNGClass) (minutes : Z) :
  0 <= minutes < 2 ^ 16 ->
  timeout (setAutoSaveTime minutes s) = (if minutes =? 0 then 60000 else minutes * 60000) /\
  0 < timeout (setAutoSaveTime minutes s).
Proof.
  intros Hm. change (2 ^ 16) with 65536 in Hm.
  assert (timeout (setAutoSaveTime minutes s)
          = if minutes =? 0 then 60000 else minutes * 60000) as ->.
  { unfold setAutoSaveTime. cbn [timeout set_timeout].
    rewrite (wrap_small 16 minutes) by done.
    destruct (minutes =? 0) eqn:E; [done|]. apply Z.eqb_neq in E.
    apply wrap_small. change (2 ^ 32) with 4294967296. lia. }
  split; [done|]. destruct (minutes =? 0) eqn:E; [done|]. apply Z.eqb_neq in E. lia.
Qed.

End Facts.

(** * The claims at concrete inputs *)

(** C1: a clamped stir, on the AVR world. *)
Lemma stir_credit_clamp_witness :
  stir demo_avr [1; 2; 3] 100 (fresh demo_avr) = stir demo_avr [1; 2; 3] 24 (fresh demo_avr).
Proof.
  apply (stir_credit_clamp demo_avr (fresh demo_avr) [1; 2; 3] 100).
  - simpl. lia.
  - simpl. lia.
  - discriminate.
Defined.

(** C1: [stir(0, 0, 8)] on the constructed engine.  [8 > 0 * 8], yet the
    call does not behave like [stir(0, 0, 0)]: it raises the credit from 0
    to 8. *)
Lemma stir_unclamped_without_data :
  8 > Z.of_nat (length (@nil Z)) * 8 /\
  stir demo_avr [] 8 (fresh demo_avr)
  <> stir demo_avr [] (Z.of_nat (length (@nil Z)) * 8) (fresh demo_avr) /\
  credits (fresh demo_avr) = 0 /\
  credits (stir demo_avr [] 8 (fresh demo_avr)) = 8.
Proof.
  split; [simpl; lia|]. split; [|split; vm_compute; reflexivity].
  intros H. apply (f_equal credits) in H. vm_compute in H. discriminate.
Qed.



(** C3, the part the amended claim leaves out: [(uint16_t)len] drops the
    high bits of the request.  Where [size_t] has 32 bits, a request of
    65536 bytes on a full pool passes for a request of none and leaves the
    credit at 384. *)
Example rand_request_truncated :
  credits (stir demo_esp32 (replicate 48 7) 384 (begin demo_esp32 None (fresh demo_esp32)))
  = 384 /\
  rand_credits demo_esp32 65536 384 = 384 /\
  credits (snd (rand demo_esp32 65536
                  (stir demo_esp32 (replicate 48 7) 384
                        (begin demo_esp32 None (fresh demo_esp32))))) = 384.
Proof.
  split; [vm_compute; reflexivity|]. split; [vm_compute; reflexivity|].
  rewrite credits_rand. vm_compute. reflexivity.
Qed.

(** C5: the first stir that fills the pool.  48 bytes are one chunk, yet
    the call rekeys twice; and with no bytes at all it rekeys twice too. *)
Lemma stir_rekeys_again_on_first_save :
  mix_rekeys 48 = 1%nat /\
  rekeys (trace (stir demo_avr (replicate 48 7) 384 (begin demo_avr None (fresh demo_avr))))
  = (rekeys (trace (begin demo_avr None (fresh demo_avr))) + 2)%nat /\
  rekeys (trace (stir demo_avr [] 384 (begin demo_avr None (fresh demo_avr))))
  = (rekeys (trace (begin demo_avr None (fresh demo_avr))) + 2)%nat.
Proof. repeat split; vm_compute; reflexivity. Qed.

(** C6: [rand] and [stir] on the constructed engine. *)
Lemma uninitialized_use_witness :
  rand demo_avr 3 (fresh demo_avr) = rand demo_avr 3 (begin demo_avr None (fresh demo_avr)) /\
  initialized (stir demo_avr [1] 0 (fresh demo_avr)) = false.
Proof.
  destruct (uninitialized_use demo_avr (fresh demo_avr) 3 [1] 0) as (H1 & _ & _ & _ & H2 & _).
  - reflexivity.
  - split; [exact H1|exact H2].
Defined.

(** C6: [stir] on the constructed engine does not begin it: the engine is
    not initialized after the call, the trace has the one rekey of the
    stir and no begin, and the call on the begun engine gives another
    state. *)
Lemma stir_does_not_begin :
  initialized (fresh demo_avr) = false /\
  initialized (stir demo_avr [1] 0 (fresh demo_avr)) = false /\
  trace (stir demo_avr [1] 0 (fresh demo_avr)) = [EvRekey] /\
  stir demo_avr [1] 0 (fresh demo_avr)
  <> stir demo_avr [1] 0 (begin demo_avr None (fresh demo_avr)).
Proof.
  split; [reflexivity|]. split; [vm_compute; reflexivity|].
  split; [vm_compute; reflexivity|].
  intros H. apply (f_equal initialized) in H. vm_compute in H. discriminate.
Qed.

(** C7: 8 bytes asked of a pool holding 64 bits. *)
Lemma available_spec_witness :
  available demo_avr 8 (stir demo_avr (replicate 32 9) 64 (begin demo_avr None (fresh demo_avr)))
  = true.
Proof.
  destruct (available_spec demo_avr
              (stir demo_avr (replicate 32 9) 64 (begin demo_avr None (fresh demo_avr))) 8)
    as (H & _).
  - simpl. lia.
  - rewrite H. vm_compute. reflexivity.
Defined.

(** C9: the engine [begin] leaves. *)
Lemma tag_prefix_kept_witness :
  take 16 (block (begin demo_avr None (fresh demo_avr))) = tagRNG /\
  take 16 (block (snd (rand demo_avr 100 (begin demo_avr None (fresh demo_avr))))) = tagRNG /\
  take 16 (block (destroy demo_avr (begin demo_avr None (fresh demo_avr)))) = replicate 16 0.
Proof.
  assert (take 16 (block (begin demo_avr None (fresh demo_avr))) = tagRNG) as Htag
    by (vm_compute; reflexivity).
  destruct (tag_prefix_kept demo_avr (begin demo_avr None (fresh demo_avr)) Htag)
    as (_ & Hrand & _ & _ & _ & _ & _ & _ & Hdestroy & _).
  split; [exact Htag|]. split; [apply Hrand|exact Hdestroy].
Defined.

(** C10: zero minutes. *)
Lemma setAutoSaveTime_interval_witness :
  timeout (setAutoSaveTime 0 (fresh demo_avr)) = 60000.
Proof.
  destruct (setAutoSaveTime_interval (fresh demo_avr) 0) as (H & _).
  - simpl. lia.
  - exact H.
Defined.

(** * The engine at work *)

(** The scenario of the specification: a fresh device with no saved seed. *)
Example scenario_fresh_device :
  let s := begin demo_avr (Some [118; 49]) (fresh demo_avr) in
  let s' := stir demo_avr (replicate 32 9) 64 s in
  initialized s = true /\ available demo_avr 48 s = false /\
  credits s' = 64 /\ available demo_avr 8 s' = true /\ available demo_avr 48 s' = false.
Proof. repeat split; vm_compute; reflexivity. Qed.

(** A request of 1100 bytes: 18 blocks, a rekey after the 16th, a rekey at
    the end. *)
Example scenario_long_request :
  let s := begin demo_avr None (fresh demo_avr) in
  take 21 (trace (snd (rand demo_avr 1100 s)))
  = [EvRekey; EvBlock; EvBlock; EvRekey] ++ replicate 16 EvBlock ++ [EvRekey] /\
  length (fst (rand demo_avr 1100 s)) = 1100%nat.
Proof. split; vm_compute; reflexivity. Qed.

(** Two saves in a row (C8).  Each save rekeys after it generated its seed;
    whether the second seed differs from the first is a matter of the
    permutation: with the stand-in that adds up bytes the two seeds stored
    differ, with a permutation that forgets its input they are the same. *)
Example save_twice_seeds :
  (forall W s, trace (save W (save W s))
               = [EvRekey; EvSave; EvRekey; EvSave] ++ trace s) /\
  eeprom (save demo_avr (save demo_avr (begin demo_avr None (fresh demo_avr))))
  <> eeprom (save demo_avr (begin demo_avr None (fresh demo_avr))) /\
  eeprom (save flat_avr (save flat_avr (begin flat_avr None (fresh flat_avr))))
  = eeprom (save flat_avr (begin flat_avr None (fresh flat_avr))).
Proof.
  split; [intros W s; by rewrite !trace_save|].
  split; [vm_compute; discriminate|vm_compute; reflexivity].
Qed.
